(** * project-mcp: registry, watcher and executor, embedded and verified

  A shallow embedding of the TypeScript sources
  - types.ts    (ToolExecutor, ToolDefinition, ToolsConfig, ExecutionResult),
  - registry.ts (class ToolRegistry; its text follows server.ts),
  - parser.ts   (parseToolsJson),
  - watcher.ts  (class ToolsWatcher; its text follows types.ts),
  - server.ts   (the handlers startWatcher installs),
  - executor.ts (executeCommand, executeBash, executePython),
  followed by the properties of the specification, each settled on
  these definitions.

  Conventions.  A method that changes an object takes the state and
  returns the new state together with what it emitted or logged.  What
  a function reads from outside (the file system, the child process,
  the environment of the parent) is an argument.  Strings are ASCII,
  JavaScript numbers are integers. *)

From Stdlib Require Import ZArith String Ascii List Bool Lia.
From stdpp Require Import base decidable option list strings gmap pretty.

Set Warnings "-register-all".

Local Open Scope string_scope.
Local Open Scope list_scope.
Local Open Scope Z_scope.

(* ===================================================================== *)
(** ** JavaScript values and the library functions the sources call      *)
(* ===================================================================== *)

Module Js.

(** [Number.MAX_SAFE_INTEGER] *)
Definition MAX_SAFE_INTEGER : Z := 9007199254740991.

(** Values of type [unknown] as they come out of [JSON.parse] (plus
    [undefined]).  A number is either a safe integer, which prints as
    its decimal digits, or any other number, which is given by the text
    [Number.prototype.toString] prints for it ([1.5], [1e+21]).  An
    object is given by its own properties. *)
Inductive Value :=
| Undefined
| Null
| Bool (b : bool)
| Number (n : Z) (safe : Is_true (Z.abs n <=? MAX_SAFE_INTEGER))
| Double (printed : string)
| Str (s : string)
| Array (items : list Value)
| Object (fields : list (string * Value)).

(** [a.join(sep)] on an array of strings. *)
Definition join (sep : string) (l : list string) : string :=
  String.concat sep l.

(** The message of the [TypeError] that [String(v)] throws. *)
Definition TypeError_message : string :=
  "Cannot convert object to primitive value".

(** [String(v)], [None] when it throws.  [Array.prototype.toString]
    joins the elements with a comma and prints [null] and [undefined]
    elements as nothing.  A plain object prints as [[object Object]];
    when it has a property [toString] of its own (which, coming from
    JSON, is no function) neither [toString] nor [valueOf] gives a
    primitive and a [TypeError] is thrown. *)
Fixpoint String_ (v : Value) : option string :=
  match v with
  | Undefined => Some "undefined"
  | Null => Some "null"
  | Bool true => Some "true"
  | Bool false => Some "false"
  | Number n _ => Some (pretty n)
  | Double printed => Some printed
  | Str s => Some s
  | Array items =>
      option_map (join ",")
        ((fix elements (l : list Value) : option (list string) :=
            match l with
            | [] => Some []
            | x :: l' =>
                match match x with
                      | Undefined | Null => Some EmptyString
                      | _ => String_ x
                      end, elements l' with
                | Some piece, Some pieces => Some (piece :: pieces)
                | _, _ => None
                end
            end) items)
  | Object fields =>
      if bool_decide ("toString" ∈ List.map fst fields) then None
      else Some "[object Object]"
  end.

(** [o[k] = v] on a plain object whose own properties are [o], for a
    string [v].  [__proto__] is an accessor of [Object.prototype]: unless
    the object has a property of that name of its own, the assignment
    goes to the setter, which ignores a string, and no property is
    made. *)
Definition Object_set (k v : string) (o : gmap string string) : gmap string string :=
  if bool_decide (k = "__proto__" ∧ o !! k = None) then o else <[k := v]> o.

(** [v ?? d] *)
Definition nullish (v d : Value) : Value :=
  match v with
  | Undefined | Null => d
  | _ => v
  end.

(** Truthiness of an optional string ([if (executor.code)]): a missing
    property and the empty string are both falsy. *)
Definition truthy (s : option string) : bool :=
  match s with
  | Some (String _ _) => true
  | _ => false
  end.

(** [c.toUpperCase()] on one ASCII character.  Upper-casing in general
    is a function of the platform (a field of [Executor.World]); this
    one is what it does on ASCII strings and serves in the samples. *)
Definition upper_ascii (c : ascii) : ascii :=
  let n := nat_of_ascii c in
  if (Nat.leb 97 n && Nat.leb n 122)%bool then ascii_of_nat (n - 32) else c.

(** [s.toUpperCase()], for ASCII strings. *)
Fixpoint toUpperCase (s : string) : string :=
  match s with
  | EmptyString => EmptyString
  | String c s' => String (upper_ascii c) (toUpperCase s')
  end.

(** ** [Map<string, V>]: entries are kept in insertion order; [set] on
    a key already present replaces the value and keeps the position. *)
Section Map.
Context {V : Type}.

Definition Map := list (string * V).

Fixpoint Map_set (k : string) (v : V) (m : Map) : Map :=
  match m with
  | [] => [(k, v)]
  | (k', v') :: m' =>
      if decide (k = k') then (k', v) :: m' else (k', v') :: Map_set k v m'
  end.

Fixpoint Map_get (k : string) (m : Map) : option V :=
  match m with
  | [] => None
  | (k', v') :: m' => if decide (k = k') then Some v' else Map_get k m'
  end.

Definition Map_has (k : string) (m : Map) : bool :=
  match Map_get k m with Some _ => true | None => false end.

Definition Map_keys (m : Map) : list string := List.map fst m.
Definition Map_values (m : Map) : list V := List.map snd m.
Definition Map_size (m : Map) : nat := length m.
End Map.
Arguments Map : clear implicits.

(** ** [Set<string>]: distinct members in insertion order. *)
Definition Set_has (x : string) (s : list string) : bool :=
  bool_decide (x ∈ s).

Definition Set_add (x : string) (s : list string) : list string :=
  if Set_has x s then s else s ++ [x].

(** [new Set(iterable)] *)
Definition Set_of (l : list string) : list string :=
  fold_left (fun s x => Set_add x s) l [].

End Js.

(* ===================================================================== *)
(** ** types.ts                                                          *)
(* ===================================================================== *)

(** [interface ToolExecutor].  The declared type of [type] is
  ['bash' | 'python'], but executeCommand has a branch for any other
  string, so the field is a string here. *)
Record ToolExecutor := {
  type : string;
  code : option string;
  file : option string;
  timeout : option Z
}.

Record PropertySchema := {
  prop_type : string;
  prop_description : option string;
  prop_default : option Js.Value;
  prop_enum : option (list Js.Value)
}.

Record ParametersSchema := {
  properties : option (list (string * PropertySchema));
  required : option (list string)
}.

(** [interface ToolDefinition] *)
Record ToolDefinition := {
  name : string;
  description : string;
  parameters : option ParametersSchema;
  executor : ToolExecutor
}.

(** [interface ToolsConfig]; [version] is the literal ['1.0']. *)
Record ToolsConfig := {
  tools : list ToolDefinition
}.

(** [interface ExecutionResult] *)
Record ExecutionResult := {
  success : bool;
  stdout : string;
  stderr : string;
  exitCode : Z;
  error : option string
}.

(* ===================================================================== *)
(** ** registry.ts                                                       *)
(* ===================================================================== *)

Module Registry.

(** What a method of the registry does to the outside: lines written
    with [console.error], and ['update'] events. *)
Inductive Output :=
| Log (line : string)
| EmitUpdate (tools : list ToolDefinition).

(** [private tools: Map<string, ToolDefinition>] *)
Definition ToolRegistry := Js.Map ToolDefinition.

Definition empty : ToolRegistry := [].

Definition getTools (r : ToolRegistry) : list ToolDefinition :=
  Js.Map_values r.

Definition getTool (n : string) (r : ToolRegistry) : option ToolDefinition :=
  Js.Map_get n r.

Definition hasTool (n : string) (r : ToolRegistry) : bool :=
  Js.Map_has n r.

Definition size (r : ToolRegistry) : nat := Js.Map_size r.

(** [this.tools.clear(); for (const tool of config.tools)
    this.tools.set(tool.name, tool)] *)
Definition repopulate (ts : list ToolDefinition) : ToolRegistry :=
  fold_left (fun m t => Js.Map_set (name t) t m) ts [].

(** [if (xs.length > 0) console.error(`[registry] <what> tools: ...`)] *)
Definition log_names (what : string) (names : list string) : list Output :=
  match names with
  | [] => []
  | _ => [Log ("[registry] " +:+ what +:+ " tools: " +:+ Js.join ", " names)]
  end.

(** The three lists [updateFromConfig] computes for its log lines, from
    the key set before the call ([oldTools]) and the names of the new
    configuration ([newTools]). *)
Definition added (config : ToolsConfig) (oldTools : list string) : list ToolDefinition :=
  List.filter (fun t => negb (Js.Set_has (name t) oldTools)) (tools config).

Definition removed (oldTools newTools : list string) : list string :=
  List.filter (fun n => negb (Js.Set_has n newTools)) oldTools.

Definition updated (config : ToolsConfig) (oldTools : list string) : list ToolDefinition :=
  List.filter (fun t => Js.Set_has (name t) oldTools) (tools config).

Definition updateFromConfig (config : ToolsConfig) (r : ToolRegistry)
  : ToolRegistry * list Output :=
  let oldTools := Js.Set_of (Js.Map_keys r) in
  let newTools := Js.Set_of (List.map name (tools config)) in
  let r' := repopulate (tools config) in
  (r',
   log_names "Added" (List.map name (added config oldTools))
     ++ log_names "Removed" (removed oldTools newTools)
     ++ log_names "Updated" (List.map name (updated config oldTools))
     ++ [EmitUpdate (getTools r')]).

Definition clear (r : ToolRegistry) : ToolRegistry * list Output :=
  let hadTools := Nat.ltb 0 (Js.Map_size r) in
  (empty,
   if hadTools then [Log "[registry] Cleared all tools"; EmitUpdate []] else []).

(** The ['update'] events among the outputs of a call. *)
Definition is_update (o : Output) : bool :=
  match o with EmitUpdate _ => true | Log _ => false end.

Definition updates (out : list Output) : list Output :=
  List.filter is_update out.

End Registry.

(* ===================================================================== *)
(** ** parser.ts                                                         *)
(* ===================================================================== *)

Module Parser.

(** One entry of [validate.errors]. *)
Record AjvError := {
  instancePath : option string;
  message : option string
}.

(** What [parseToolsJson] finds when it looks at the file: each
    constructor is one way through the function.  The schema file of the
    installation is taken to be readable, so [initValidator] returns. *)
Inductive FileContent :=
| Missing                                      (* [existsSync] is false *)
| Unreadable (msg : string)                    (* [readFile] rejects *)
| Malformed (msg : string)                     (* [JSON.parse] throws *)
| Rejected (errs : option (list AjvError))     (* [validate] is false *)
| Accepted (config : ToolsConfig).             (* [validate] is true *)

(** [interface ParseResult] *)
Record ParseResult := {
  success : bool;
  config : option ToolsConfig;
  errors : option (list string)
}.

(** A template literal prints a missing value as [undefined]. *)
Definition interpolate (s : option string) : string :=
  match s with Some x => x | None => "undefined" end.

(** [const path = err.instancePath || '/'; return `${path}: ${err.message}`] *)
Definition render (e : AjvError) : string :=
  let path := if Js.truthy (instancePath e)
              then interpolate (instancePath e) else "/" in
  path +:+ ": " +:+ interpolate (message e).

Definition failure (errs : list string) : ParseResult :=
  {| success := false; config := None; errors := Some errs |}.

Definition parseToolsJson (toolsJsonPath : string) (f : FileContent) : ParseResult :=
  match f with
  | Missing => failure ["File not found: " +:+ toolsJsonPath]
  | Unreadable msg => failure ["Failed to read file: " +:+ msg]
  | Malformed msg => failure ["Invalid JSON: " +:+ msg]
  | Rejected errs =>
      failure (match errs with
               | Some l => List.map render l
               | None => ["Unknown validation error"]
               end)
  | Accepted c => {| success := true; config := Some c; errors := None |}
  end.

End Parser.

(* ===================================================================== *)
(** ** watcher.ts                                                        *)
(* ===================================================================== *)

Module Watcher.

(** [this.emit('change', config)], [this.emit('delete')],
    [this.emit('error', error)] with [error.message]. *)
Inductive Event :=
| Change (config : ToolsConfig)
| Delete
| Error (message : string).

(** The fields of [ToolsWatcher] that the reload path reads and writes.
    [mtimeMs] values are only compared for equality; they are integers
    here. *)
Record State := {
  lastMtime : Z;
  lastConfig : option ToolsConfig
}.

Definition initial : State := {| lastMtime := 0; lastConfig := None |}.

(** What one call sees of the file system: the answer of [existsSync],
    of [stat] ([None] when it throws) and what the parser finds. *)
Record FsView := {
  exists_ : bool;
  mtimeMs : option Z;
  content : Parser.FileContent
}.

(** [`Failed to parse tools.json: ${result.errors?.join(', ')}`] *)
Definition parse_failure_message (errors : option (list string)) : string :=
  "Failed to parse tools.json: "
    +:+ Parser.interpolate (option_map (Js.join ", ") errors).

Definition loadAndEmit (toolsJsonPath : string) (fs : FsView) (w : State)
  : State * list Event :=
  if negb (exists_ fs) then (w, [])
  else
    let w1 := match mtimeMs fs with
              | Some m => {| lastMtime := m; lastConfig := lastConfig w |}
              | None => w
              end in
    let result := Parser.parseToolsJson toolsJsonPath (content fs) in
    if negb (Parser.success result) then
      (w1, [Error (parse_failure_message (Parser.errors result))])
    else
      match Parser.config result with
      | Some c => ({| lastMtime := lastMtime w1; lastConfig := Some c |}, [Change c])
      | None => (w1, [])
      end.

Definition handleDelete (w : State) : State * list Event :=
  ({| lastMtime := 0; lastConfig := None |}, [Delete]).

(** The deletion branch, written twice in [poll]. *)
Definition poll_deleted (w : State) : State * list Event :=
  if decide (lastMtime w ≠ 0)
  then ({| lastMtime := 0; lastConfig := None |}, [Delete])
  else (w, []).

(** [poll]: [fs] is what [poll] itself sees, [fs_load] what the nested
    [loadAndEmit] sees a moment later. *)
Definition poll (toolsJsonPath : string) (fs fs_load : FsView) (w : State)
  : State * list Event :=
  if negb (exists_ fs) then poll_deleted w
  else
    match mtimeMs fs with
    | Some mtime =>
        if decide (mtime ≠ lastMtime w)
        then loadAndEmit toolsJsonPath fs_load
               {| lastMtime := mtime; lastConfig := lastConfig w |}
        else (w, [])
    | None => poll_deleted w
    end.

Definition getLastConfig (w : State) : option ToolsConfig := lastConfig w.

End Watcher.

(* ===================================================================== *)
(** ** server.ts: the watcher wired to the registry                      *)
(* ===================================================================== *)

Module Server.

(** [watcher] and the singleton [registry]. *)
Record State := {
  watcher : Watcher.State;
  registry : Registry.ToolRegistry
}.

(** What can be observed of one step: the events the watcher emitted,
    what the registry did in their handlers, and the server's own log. *)
Inductive Obs :=
| Emitted (e : Watcher.Event)
| Reg (o : Registry.Output)
| ServerLog (line : string).

(** What is seen of one output of the registry.  The listener that
    [createServer] puts on the registry's ['update'] event runs inside
    [emit] and logs one line. *)
Definition observe (o : Registry.Output) : list Obs :=
  match o with
  | Registry.EmitUpdate ts =>
      [Reg o;
       ServerLog ("[server] Tools updated (" +:+ pretty (length ts)
                    +:+ " tools available)")]
  | Registry.Log _ => [Reg o]
  end.

(** The three handlers [startWatcher] installs. *)
Definition handle (e : Watcher.Event) (r : Registry.ToolRegistry)
  : Registry.ToolRegistry * list Obs :=
  match e with
  | Watcher.Change config =>
      let '(r', out) := Registry.updateFromConfig config r in
      (r', flat_map observe out)
  | Watcher.Delete =>
      let '(r', out) := Registry.clear r in (r', flat_map observe out)
  | Watcher.Error msg => (r, [ServerLog ("[server] Watcher error: " +:+ msg)])
  end.

(** [emit] calls the handler at once, event by event. *)
Fixpoint deliver (es : list Watcher.Event) (r : Registry.ToolRegistry)
  : Registry.ToolRegistry * list Obs :=
  match es with
  | [] => (r, [])
  | e :: es' =>
      let '(r1, o1) := handle e r in
      let '(r2, o2) := deliver es' r1 in
      (r2, Emitted e :: o1 ++ o2)
  end.

(** One watcher operation run inside the server. *)
Definition run (op : Watcher.State -> Watcher.State * list Watcher.Event)
  (s : State) : State * list Obs :=
  let '(w', es) := op (watcher s) in
  let '(r', obs) := deliver es (registry s) in
  ({| watcher := w'; registry := r' |}, obs).

(** The inputs of the running server: a reload (initial load, or the
    debounce timer firing after an add/change event), an unlink event,
    a poll tick. *)
Inductive Input :=
| Reload (fs : Watcher.FsView)
| Unlink
| Poll (fs fs_load : Watcher.FsView).

Definition step (toolsJsonPath : string) (i : Input) (s : State)
  : State * list Obs :=
  match i with
  | Reload fs => run (Watcher.loadAndEmit toolsJsonPath fs) s
  | Unlink => run Watcher.handleDelete s
  | Poll fs fs_load => run (Watcher.poll toolsJsonPath fs fs_load) s
  end.

Fixpoint steps (toolsJsonPath : string) (inputs : list Input) (s : State)
  : State * list Obs :=
  match inputs with
  | [] => (s, [])
  | i :: inputs' =>
      let '(s1, o1) := step toolsJsonPath i s in
      let '(s2, o2) := steps toolsJsonPath inputs' s1 in
      (s2, o1 ++ o2)
  end.

Definition deleted_events (obs : list Obs) : nat :=
  length (List.filter (fun o => match o with
                                | Emitted Watcher.Delete => true
                                | _ => false
                                end) obs).

End Server.

(* ===================================================================== *)
(** ** executor.ts                                                       *)
(* ===================================================================== *)

Module Executor.

(** [const DEFAULT_TIMEOUT = 30000] *)
Definition DEFAULT_TIMEOUT : Z := 30000.

(** How a promise ends: fulfilled, rejected (the [async] function threw),
    or never settled. *)
Inductive Promise (A : Type) :=
| Resolved (a : A)
| Thrown (reason : string)
| Pending.
Arguments Resolved {A} a.
Arguments Thrown {A} reason.
Arguments Pending {A}.

(** *** The child process, as the handlers see it *)

(** The events the handlers of [executeBash] are registered for. *)
Inductive ChildEvent :=
| StdoutData (data : string)
| StderrData (data : string)
| ErrorEvent (message : string)
| CloseEvent (code : option Z).

Record SpawnRequest := {
  command : string;
  args : list string;
  env : gmap string string;
  cwd : string
}.

(** What a spawned child does.  [spawn_throws]: [spawn] itself throws
    (an argument it refuses).  [undisturbed]: the events the child
    produces when nothing is sent to it, each with its time in
    milliseconds after the spawn, in order.  [after_timeout]: the events
    that follow once the timeout callback has run and signalled it. *)
Record Child := {
  spawn_throws : option string;
  undisturbed : list (Z * ChildEvent);
  after_timeout : list ChildEvent
}.

(** The part of the outside one call of [executeCommand] touches;
    [toUpperCase] is [String.prototype.toUpperCase]. *)
Record World := {
  process_env : gmap string string;
  toUpperCase : string -> string;
  existsSync : string -> bool;
  readFile : string -> string + string;        (* contents, or the error *)
  path_join : string -> string -> string;
  spawn : SpawnRequest -> Child
}.

(** *** Timers *)

(** Node's [setTimeout(cb, after)] runs [cb] after [after] milliseconds,
    and after 1 millisecond when [after] is below 1 or above
    [TIMEOUT_MAX] (lib/internal/timers.js). *)
Definition TIMEOUT_MAX : Z := 2147483647.

Definition timer_delay (after : Z) : Z :=
  if ((1 <=? after) && (after <=? TIMEOUT_MAX))%bool then after else 1.

(** *** The closure of [executeBash] / [executePython] *)

(** [stdout], [stderr], [killed], whether [timer] can still fire, and
    the value the promise was resolved with (the first [resolve] wins). *)
Record Run := {
  r_stdout : string;
  r_stderr : string;
  killed : bool;
  timer_armed : bool;
  settled : option ExecutionResult
}.

Definition start : Run :=
  {| r_stdout := EmptyString; r_stderr := EmptyString; killed := false;
     timer_armed := true; settled := None |}.

Definition resolve (res : ExecutionResult) (st : Run) : Run :=
  {| r_stdout := r_stdout st; r_stderr := r_stderr st; killed := killed st;
     timer_armed := timer_armed st;
     settled := match settled st with Some r => Some r | None => Some res end |}.

Definition clearTimeout (st : Run) : Run :=
  {| r_stdout := r_stdout st; r_stderr := r_stderr st; killed := killed st;
     timer_armed := false; settled := settled st |}.

(** The callback of [setTimeout]: [killed = true; proc.kill('SIGTERM')]. *)
Definition on_timeout (st : Run) : Run :=
  {| r_stdout := r_stdout st; r_stderr := r_stderr st; killed := true;
     timer_armed := false; settled := settled st |}.

(** [`Execution timed out after ${timeout}ms`] *)
Definition timeout_message (timeout : Z) : string :=
  "Execution timed out after " +:+ pretty timeout +:+ "ms".

(** [`Failed to spawn bash: ${err.message}`] *)
Definition spawn_message (interpreter msg : string) : string :=
  "Failed to spawn " +:+ interpreter +:+ ": " +:+ msg.

(** The value [proc.on('error')] resolves with. *)
Definition error_result (interpreter : string) (st : Run) (msg : string) : ExecutionResult :=
  {| success := false; stdout := r_stdout st; stderr := r_stderr st;
     exitCode := 1; error := Some (spawn_message interpreter msg) |}.

(** The value [proc.on('close')] resolves with; [code] is [null] when
    the child was ended by a signal. *)
Definition close_result (timeout : Z) (st : Run) (code : option Z) : ExecutionResult :=
  if killed st then
    {| success := false; stdout := r_stdout st; stderr := r_stderr st;
       exitCode := default 1 code; error := Some (timeout_message timeout) |}
  else
    {| success := bool_decide (code = Some 0);
       stdout := r_stdout st; stderr := r_stderr st;
       exitCode := default 0 code; error := None |}.

(** The four handlers: [proc.stdout.on('data')], [proc.stderr.on('data')],
    [proc.on('error')], [proc.on('close')]. *)
Definition on_event (interpreter : string) (timeout : Z) (e : ChildEvent) (st : Run) : Run :=
  match e with
  | StdoutData data =>
      {| r_stdout := r_stdout st +:+ data; r_stderr := r_stderr st;
         killed := killed st; timer_armed := timer_armed st; settled := settled st |}
  | StderrData data =>
      {| r_stdout := r_stdout st; r_stderr := r_stderr st +:+ data;
         killed := killed st; timer_armed := timer_armed st; settled := settled st |}
  | ErrorEvent msg =>
      resolve (error_result interpreter st msg) (clearTimeout st)
  | CloseEvent code =>
      resolve (close_result timeout st code) (clearTimeout st)
  end.

(** Events handled one after the other. *)
Definition feed (interpreter : string) (timeout : Z) (evs : list ChildEvent) (st : Run) : Run :=
  fold_left (fun s e => on_event interpreter timeout e s) evs st.

(** The event loop for one child: its events are handled in order while
    the timer has not come due; when it comes due (armed, and the next
    event is not earlier than the deadline, or there is none) the
    timeout callback runs and the child continues with [after]. *)
Fixpoint drive (interpreter : string) (timeout deadline : Z)
  (evs : list (Z * ChildEvent)) (after : list ChildEvent) (st : Run) : Run :=
  match evs with
  | [] =>
      if timer_armed st
      then feed interpreter timeout after (on_timeout st)
      else st
  | (t, e) :: evs' =>
      if (timer_armed st && (deadline <=? t))%bool
      then feed interpreter timeout after (on_timeout st)
      else drive interpreter timeout deadline evs' after (on_event interpreter timeout e st)
  end.

(** [executeBash] and [executePython] are the same text up to the name
    of the interpreter. *)
Definition execute (interpreter : string) (w : World)
  (code : string) (env : gmap string string) (timeout : Z) (cwd : string)
  : Promise ExecutionResult :=
  let child := spawn w {| command := interpreter; args := ["-c"; code];
                          env := env; cwd := cwd |} in
  match spawn_throws child with
  | Some reason => Thrown reason
  | None =>
      match settled (drive interpreter timeout (timer_delay timeout)
                       (undisturbed child) (after_timeout child) start) with
      | Some res => Resolved res
      | None => Pending
      end
  end.

Definition executeBash := execute "bash".
Definition executePython := execute "python3".

(** *** executeCommand *)

(** [String(value ?? '')], [None] when it throws. *)
Definition param_string (value : Js.Value) : option string :=
  Js.String_ (Js.nullish value (Js.Str EmptyString)).

(** The loop over [Object.entries(params)]; [params] is that sequence
    of entries.  A value that cannot be coerced ends the loop, and the
    function, with the [TypeError]. *)
Fixpoint add_params (upper : string -> string)
  (params : list (string * Js.Value)) (env : gmap string string)
  : option (gmap string string) :=
  match params with
  | [] => Some env
  | (key, value) :: params' =>
      match param_string value with
      | Some s =>
          add_params upper params'
            (Js.Object_set key s (Js.Object_set ("PARAM_" +:+ upper key) s env))
      | None => None
      end
  end.

(** The object literal (the spread copies the variables of the parent
    as own properties) followed by the loop; [None] when the loop
    throws. *)
Definition build_env (w : World)
  (params : list (string * Js.Value)) (projectRoot mcpDir toolName : string)
  : option (gmap string string) :=
  let env0 := <["TOOL_NAME" := toolName]>
                (<["MCP_TOOLS_DIR" := mcpDir]>
                   (<["PROJECT_ROOT" := projectRoot]> (process_env w))) in
  add_params (toUpperCase w) params env0.

(** ['Executor must have either "code" or "file" property'] *)
Definition dquote : string := String (ascii_of_nat 34) EmptyString.

Definition missing_source_message : string :=
  "Executor must have either " +:+ dquote +:+ "code" +:+ dquote
    +:+ " or " +:+ dquote +:+ "file" +:+ dquote +:+ " property".

Definition failed (msg : string) : ExecutionResult :=
  {| success := false; stdout := EmptyString; stderr := EmptyString;
     exitCode := 1; error := Some msg |}.

(** The last [if] of [executeCommand]. *)
Definition dispatch (w : World) (executor : ToolExecutor) (code : string)
  (env : gmap string string) (timeout : Z) (projectRoot : string)
  : Promise ExecutionResult :=
  if decide (type executor = "bash") then executeBash w code env timeout projectRoot
  else if decide (type executor = "python") then executePython w code env timeout projectRoot
  else Resolved (failed ("Unknown executor type: " +:+ type executor)).

Definition executeCommand (w : World) (executor : ToolExecutor)
  (params : list (string * Js.Value)) (projectRoot mcpDir toolName : string)
  : Promise ExecutionResult :=
  let timeout := default DEFAULT_TIMEOUT (timeout executor) in
  match build_env w params projectRoot mcpDir toolName with
  | None => Thrown Js.TypeError_message
  | Some env =>
      if Js.truthy (code executor) then
        dispatch w executor (default EmptyString (code executor)) env timeout projectRoot
      else if Js.truthy (file executor) then
        let scriptPath := path_join w mcpDir (default EmptyString (file executor)) in
        if negb (existsSync w scriptPath) then
          Resolved (failed ("Script file not found: " +:+ scriptPath))
        else
          match readFile w scriptPath with
          | inl code => dispatch w executor code env timeout projectRoot
          | inr reason => Thrown reason
          end
      else
        Resolved (failed missing_source_message)
  end.

End Executor.

(* ===================================================================== *)
(** ** Sample data for the worked instances                              *)
(* ===================================================================== *)

Module Sample.

Definition shell_tool (n c : string) : ToolDefinition :=
  {| name := n; description := "sample";
     parameters := None;
     executor := {| type := "bash"; code := Some c; file := None; timeout := None |} |}.

Definition tool_a : ToolDefinition := shell_tool "a" "echo one".
Definition tool_a2 : ToolDefinition := shell_tool "a" "echo two".
Definition tool_b : ToolDefinition := shell_tool "b" "echo b".

Definition tools_json : string := "/work/.mcp/tools.json".

(** A server that has loaded [a] and [b]. *)
Definition loaded : Server.State :=
  {| Server.watcher :=
       {| Watcher.lastMtime := 1700000000000;
          Watcher.lastConfig := Some {| tools := [tool_a; tool_b] |} |};
     Server.registry := Registry.repopulate [tool_a; tool_b] |}.

(** The file after an edit that broke its syntax. *)
Definition broken : Watcher.FsView :=
  {| Watcher.exists_ := true;
     Watcher.mtimeMs := Some 1700000005000;
     Watcher.content := Parser.Malformed "Unexpected end of JSON input" |}.

(** The file after its deletion, and after it was written again. *)
Definition gone : Watcher.FsView :=
  {| Watcher.exists_ := false;
     Watcher.mtimeMs := None;
     Watcher.content := Parser.Missing |}.

Definition recreated : Watcher.FsView :=
  {| Watcher.exists_ := true;
     Watcher.mtimeMs := Some 1700000009000;
     Watcher.content := Parser.Accepted {| tools := [tool_b] |} |}.

(** A world with no script files, in which every spawn gives [child]. *)
Definition world (child : Executor.Child) : Executor.World :=
  {| Executor.process_env := {[ "PATH" := "/usr/bin" ]};
     Executor.toUpperCase := Js.toUpperCase;
     Executor.existsSync := fun _ => false;
     Executor.readFile := fun _ => inr "ENOENT: no such file or directory";
     Executor.path_join := fun a b => a +:+ "/" +:+ b;
     Executor.spawn := fun _ => child |}.

(** The same, but every path exists and is a directory. *)
Definition world_of_directories (child : Executor.Child) : Executor.World :=
  {| Executor.process_env := {[ "PATH" := "/usr/bin" ]};
     Executor.toUpperCase := Js.toUpperCase;
     Executor.existsSync := fun _ => true;
     Executor.readFile := fun _ => inr "EISDIR: illegal operation on a directory, read";
     Executor.path_join := fun a b => a +:+ "/" +:+ b;
     Executor.spawn := fun _ => child |}.

(** A world whose only file is the script [/work/.mcp/run.sh]. *)
Definition world_with_script (child : Executor.Child) : Executor.World :=
  {| Executor.process_env := {[ "PATH" := "/usr/bin" ]};
     Executor.toUpperCase := Js.toUpperCase;
     Executor.existsSync := fun p => bool_decide (p = "/work/.mcp/run.sh");
     Executor.readFile := fun _ => inl "echo hello";
     Executor.path_join := fun a b => a +:+ "/" +:+ b;
     Executor.spawn := fun _ => child |}.

(** [echo hello]: one line after 3 ms, exit code 0 after 4 ms. *)
Definition hello : Executor.Child :=
  {| Executor.spawn_throws := None;
     Executor.undisturbed :=
       [(3, Executor.StdoutData "hello"); (4, Executor.CloseEvent (Some 0))];
     Executor.after_timeout := [Executor.CloseEvent None] |}.

(** [sleep 5; echo done]: it ends by itself after five seconds, and is
    ended by SIGTERM (no exit code) when it is signalled. *)
Definition sleeper : Executor.Child :=
  {| Executor.spawn_throws := None;
     Executor.undisturbed :=
       [(5000, Executor.StdoutData "done"); (5001, Executor.CloseEvent (Some 0))];
     Executor.after_timeout := [Executor.CloseEvent None] |}.

(** An empty script: exit code 0 after 2 ms. *)
Definition quiet : Executor.Child :=
  {| Executor.spawn_throws := None;
     Executor.undisturbed := [(2, Executor.CloseEvent (Some 0))];
     Executor.after_timeout := [Executor.CloseEvent None] |}.

(** The interpreter is not installed. *)
Definition no_interpreter : Executor.Child :=
  {| Executor.spawn_throws := None;
     Executor.undisturbed :=
       [(1, Executor.ErrorEvent "spawn bash ENOENT"); (1, Executor.CloseEvent (Some (-2)))];
     Executor.after_timeout := [] |}.

End Sample.

(* ===================================================================== *)
(** ** Vocabulary of the properties                                      *)
(* ===================================================================== *)

(** Every entry of the registry is stored under the name of its
    definition. *)
Definition keyed (r : Registry.ToolRegistry) : Prop :=
  Forall (fun kv => name kv.2 = kv.1) r.




(** The events of a child that are handled before the timer comes due. *)
Fixpoint before (deadline : Z) (evs : list (Z * Executor.ChildEvent))
  : list Executor.ChildEvent :=
  match evs with
  | [] => []
  | (t, e) :: evs' => if deadline <=? t then [] else e :: before deadline evs'
  end.

(** The first ['close'] or ['error'] event of a sequence. *)
Fixpoint ending (evs : list Executor.ChildEvent) : option Executor.ChildEvent :=
  match evs with
  | [] => None
  | Executor.CloseEvent c :: _ => Some (Executor.CloseEvent c)
  | Executor.ErrorEvent m :: _ => Some (Executor.ErrorEvent m)
  | _ :: evs' => ending evs'
  end.

(** What the child wrote to its standard output and standard error
    before that event. *)
Fixpoint captured (evs : list Executor.ChildEvent) : string * string :=
  match evs with
  | Executor.StdoutData d :: evs' => (d +:+ (captured evs').1, (captured evs').2)
  | Executor.StderrData d :: evs' => ((captured evs').1, d +:+ (captured evs').2)
  | _ => (EmptyString, EmptyString)
  end.



(** [executeCommand] gets as far as having the code [src] to run: the
    inline code is truthy, or it is not and the truthy file reference
    names an existing file that was read. *)
Definition resolves_to (w : Executor.World) (ex : ToolExecutor) (dir src : string) : Prop :=
  (Js.truthy (code ex) = true ∧ code ex = Some src)
  ∨ (Js.truthy (code ex) = false ∧ Js.truthy (file ex) = true
     ∧ ∃ f, file ex = Some f
            ∧ Executor.existsSync w (Executor.path_join w dir f) = true
            ∧ Executor.readFile w (Executor.path_join w dir f) = inl src).

(* ===================================================================== *)
(** ** More of the sources: string helpers                               *)
(* ===================================================================== *)

Module JsString.

(** [s.startsWith(p)] *)
Fixpoint startsWith (p s : string) : bool :=
  match p, s with
  | EmptyString, _ => true
  | String a p', String b s' => bool_decide (a = b) && startsWith p' s'
  | String _ _, EmptyString => false
  end.

(** [s.split(sep)] for a separator of one character; the result is
    never empty. *)
Fixpoint split (sep : ascii) (s : string) : list string :=
  match s with
  | EmptyString => [EmptyString]
  | String c s' =>
      if decide (c = sep) then EmptyString :: split sep s'
      else match split sep s' with
           | piece :: rest => String c piece :: rest
           | [] => [String c EmptyString]
           end
  end.

(** [a || b] on strings. *)
Definition or_else (a b : string) : string :=
  match a with EmptyString => b | _ => a end.

(** The line feed of a template literal. *)
Definition nl : string := String (ascii_of_nat 10) EmptyString.

End JsString.

(* ===================================================================== *)
(** ** watcher.ts: handleChange, debouncedLoad and their timer           *)
(* ===================================================================== *)

Module Debounce.

(** [const DEBOUNCE_DELAY = 300] *)
Definition DEBOUNCE_DELAY : Z := 300.

(** [debounceTimer] is [None] when no timer is pending, and the time at
    which the pending timer comes due otherwise.  [debouncedLoad], run
    at time [now], clears a pending timer and sets a new one. *)
Definition debouncedLoad (now : Z) (debounceTimer : option Z) : option Z :=
  Some (now + DEBOUNCE_DELAY).

(** [handleChange] for an add or change event at time [now]. *)
Definition handleChange (now : Z) (debounceTimer : option Z) : option Z :=
  debouncedLoad now debounceTimer.

(** The event loop over the times of the add/change events, in order:
    a pending timer that has come due when the next event arrives runs
    its callback first ([debounceTimer = null; loadAndEmit()]).  The
    result is the list of times at which [loadAndEmit] is started. *)
Fixpoint loads (debounceTimer : option Z) (changes : list Z) : list Z :=
  match changes with
  | [] => match debounceTimer with Some due => [due] | None => [] end
  | t :: changes' =>
      match debounceTimer with
      | Some due =>
          if due <=? t
          then due :: loads (handleChange t None) changes'
          else loads (handleChange t (Some due)) changes'
      | None => loads (handleChange t None) changes'
      end
  end.

(** [stop()] clears the pending timer. *)
Definition stop (debounceTimer : option Z) : option Z := None.

End Debounce.

(* ===================================================================== *)
(** ** server.ts: startWatcher and the request handlers                  *)
(* ===================================================================== *)

Module Facade.

(** [startWatcher]: the old watcher is stopped, a new [ToolsWatcher] is
    made for the new root (its fields start at 0 and [null]), the three
    handlers are installed on it, and [start()] runs its first
    [loadAndEmit].  The singleton registry is the one already there. *)
Definition startWatcher (toolsJsonPath : string) (fs : Watcher.FsView)
  (s : Server.State) : Server.State * list Server.Obs :=
  Server.run (Watcher.loadAndEmit toolsJsonPath fs)
    {| Server.watcher := Watcher.initial; Server.registry := Server.registry s |}.

(** One entry of the answer to [tools/list]. *)
Record Listing := {
  l_name : string;
  l_description : string;
  inputSchema : ParametersSchema
}.

(** [tool.parameters ?? { type: 'object', properties: {} }] *)
Definition default_schema : ParametersSchema :=
  {| properties := Some []; required := None |}.

(** The handler of [tools/list], once initialization is over. *)
Definition listTools (r : Registry.ToolRegistry) : list Listing :=
  List.map (fun tool =>
              {| l_name := name tool; l_description := description tool;
                 inputSchema := default default_schema (parameters tool) |})
           (Registry.getTools r).

(** The answer to [tools/call]: one text, and [isError]. *)
Record Response := {
  text : string;
  isError : bool
}.

Definition error_response (msg : string) : Response :=
  {| text := msg; isError := true |}.

(** What the handler makes of an [ExecutionResult]. *)
Definition respond (result : ExecutionResult) : Response :=
  if negb (success result) then
    error_response
      (if Js.truthy (error result)
       then "Error: " +:+ default EmptyString (error result)
              +:+ JsString.nl +:+ JsString.nl +:+ "Stderr:" +:+ JsString.nl
              +:+ stderr result
       else "Command failed with exit code " +:+ pretty (exitCode result)
              +:+ JsString.nl +:+ JsString.nl +:+ "Stderr:" +:+ JsString.nl
              +:+ stderr result)
  else
    {| text := JsString.or_else (stdout result)
                 (JsString.or_else (stderr result) "(no output)");
       isError := false |}.

(** The handler of [tools/call].  [arguments] may be missing. *)
Definition callTool (w : Executor.World)
  (currentProjectRoot currentMcpDir : option string)
  (r : Registry.ToolRegistry)
  (name : string) (arguments : option (list (string * Js.Value)))
  : Executor.Promise Response :=
  if (negb (Js.truthy currentProjectRoot) || negb (Js.truthy currentMcpDir))%bool then
    Executor.Resolved
      (error_response
         "Error: Project root not initialized. The MCP client must provide roots.")
  else
    match Registry.getTool name r with
    | None =>
        Executor.Resolved
          (error_response ("Error: Unknown tool " +:+ Executor.dquote +:+ name
                             +:+ Executor.dquote))
    | Some tool =>
        match Executor.executeCommand w (executor tool) (default [] arguments)
                (default EmptyString currentProjectRoot)
                (default EmptyString currentMcpDir) name with
        | Executor.Resolved result => Executor.Resolved (respond result)
        | Executor.Thrown reason =>
            Executor.Resolved (error_response ("Execution error: " +:+ reason))
        | Executor.Pending => Executor.Pending
        end
    end.

End Facade.

(* ===================================================================== *)
(** ** index.ts: parseArgs                                               *)
(* ===================================================================== *)

Module Cli.

(** The loop over [process.argv.slice(2)].  [args[i + 1]] must be there
    and not empty for the two-word forms; they skip the next argument. *)
Fixpoint scan (args : list string) (projectRoot : option string) (mcpDirName : string)
  : option string * string :=
  match args with
  | [] => (projectRoot, mcpDirName)
  | a :: rest =>
      let next := match rest with n :: _ => Some n | [] => None end in
      if (bool_decide (a = "--project-root") && Js.truthy next)%bool then
        match rest with
        | n :: r => scan r (Some n) mcpDirName
        | [] => (projectRoot, mcpDirName)
        end
      else if JsString.startsWith "--project-root=" a then
        scan rest (Some (nth 1 (JsString.split "=" a) EmptyString)) mcpDirName
      else if (bool_decide (a = "--mcp-dir") && Js.truthy next)%bool then
        match rest with
        | n :: r => scan r projectRoot n
        | [] => (projectRoot, mcpDirName)
        end
      else if JsString.startsWith "--mcp-dir=" a then
        scan rest projectRoot (nth 1 (JsString.split "=" a) EmptyString)
      else scan rest projectRoot mcpDirName
  end.

(** What [parseArgs] reads from outside: the environment, [path.resolve]
    and [existsSync]. *)
Record Host := {
  environment : gmap string string;
  resolve : string -> string;
  existsSync : string -> bool
}.

Record Parsed := {
  projectRoot : option string;
  mcpDirName : string
}.

Definition parseArgs (h : Host) (args : list string) : Parsed :=
  let '(root, dir) := scan args None ".mcp" in
  let root := if negb (Js.truthy root) then environment h !! "PROJECT_ROOT" else root in
  let dir := if Js.truthy (environment h !! "MCP_DIR_NAME")
             then default EmptyString (environment h !! "MCP_DIR_NAME") else dir in
  let root :=
    if Js.truthy root then
      let resolved := resolve h (default EmptyString root) in
      if negb (existsSync h resolved) then None else Some resolved
    else root in
  {| projectRoot := root; mcpDirName := dir |}.

End Cli.

(* ===================================================================== *)
(** ** Vocabulary of the further properties                              *)
(* ===================================================================== *)

(** The registry holds exactly the tools of the configuration the
    watcher accepted last, and nothing when there is none. *)
Definition reflects_last_config (s : Server.State) : Prop :=
  Server.registry s
  = match Watcher.getLastConfig (Server.watcher s) with
    | Some c => Registry.repopulate (tools c)
    | None => Registry.empty
    end.

(** The character [c] occurs in [s]. *)
Fixpoint occurs (c : ascii) (s : string) : bool :=
  match s with
  | EmptyString => false
  | String a s' => bool_decide (a = c) || occurs c s'
  end.

(** Each change event comes less than the debounce delay after the one
    before it. *)
Fixpoint burst (prev : Z) (changes : list Z) : Prop :=
  match changes with
  | [] => True
  | t :: changes' => prev <= t < prev + Debounce.DEBOUNCE_DELAY ∧ burst t changes'
  end.

(** The change events come in the order of their times, none before
    [prev]. *)
Fixpoint ascending (prev : Z) (changes : list Z) : Prop :=
  match changes with
  | [] => True
  | t :: changes' => prev <= t ∧ ascending t changes'
  end.

(** More sample data. *)
Module Scenario.

(** A host whose environment names a configuration directory, and in
    which only [/work] exists. *)
Definition host : Cli.Host :=
  {| Cli.environment := {[ "MCP_DIR_NAME" := "tools" ]};
     Cli.resolve := fun p => p;
     Cli.existsSync := fun p => bool_decide (p = "/work") |}.

(** The same without the variable. *)
Definition bare_host : Cli.Host :=
  {| Cli.environment := ∅;
     Cli.resolve := fun p => p;
     Cli.existsSync := fun p => bool_decide (p = "/work") |}.

(** [exit 3], with a line on standard error. *)
Definition failing : Executor.Child :=
  {| Executor.spawn_throws := None;
     Executor.undisturbed :=
       [(2, Executor.StderrData "boom"); (3, Executor.CloseEvent (Some 3))];
     Executor.after_timeout := [Executor.CloseEvent None] |}.

End Scenario.

(* ===================================================================== *)
(** * Properties                                                         *)
(* ===================================================================== *)

Section MapFacts.
Context {V : Type}.
Implicit Types (m : Js.Map V) (k : string) (v : V).

Lemma Map_get_set_eq k v m : Js.Map_get k (Js.Map_set k v m) = Some v.
Proof.
  induction m as [|[k' v'] m IH]; simpl.
  - by rewrite decide_True.
  - destruct (decide (k = k')) as [->|Hne]; simpl.
    + by rewrite decide_True.
    + by rewrite decide_False.
Qed.

Lemma Map_get_set_ne k k' v m :
  k ≠ k' → Js.Map_get k' (Js.Map_set k v m) = Js.Map_get k' m.
Proof.
  intros Hne. induction m as [|[k0 v0] m IH]; simpl.
  - by rewrite decide_False.
  - destruct (decide (k = k0)) as [->|Hne0]; simpl.
    + by rewrite !decide_False.
    + destruct (decide (k' = k0)); [done | apply IH].
Qed.

Lemma Map_keys_set k v m :
  Js.Map_keys (Js.Map_set k v m)
  = if bool_decide (k ∈ Js.Map_keys m) then Js.Map_keys m
    else Js.Map_keys m ++ [k].
Proof.
  induction m as [|[k' v'] m IH]; simpl; [done|].
  destruct (decide (k = k')) as [->|Hne]; simpl.
  - rewrite bool_decide_true; [done | left].
  - unfold Js.Map_keys in *. rewrite IH.
    destruct (bool_decide_reflect (k ∈ List.map fst m)) as [Hin|Hnin].
    + rewrite bool_decide_true; [done | by right].
    + rewrite bool_decide_false; [done|].
      intros Hin. apply elem_of_cons in Hin as [?|?]; done.
Qed.

End MapFacts.

(** ** Sets in insertion order *)

Lemma Set_add_elem x y s : y ∈ Js.Set_add x s ↔ y = x ∨ y ∈ s.
Proof.
  unfold Js.Set_add, Js.Set_has. case_bool_decide as Hx.
  - split; [tauto | intros [->|?]; done].
  - rewrite elem_of_app, list_elem_of_singleton. tauto.
Qed.

Lemma Set_add_NoDup x s : NoDup s → NoDup (Js.Set_add x s).
Proof.
  intros Hs. unfold Js.Set_add, Js.Set_has. case_bool_decide as Hx; [done|].
  apply NoDup_app. split_and!; [done | | apply NoDup_singleton].
  intros y Hy Hy'. apply list_elem_of_singleton in Hy' as ->. done.
Qed.

Lemma Set_fold_elem l s y :
  y ∈ fold_left (fun s x => Js.Set_add x s) l s ↔ y ∈ s ∨ y ∈ l.
Proof.
  revert s. induction l as [|x l IH]; intros s; simpl.
  - rewrite elem_of_nil. tauto.
  - rewrite IH, Set_add_elem, elem_of_cons. tauto.
Qed.

Lemma Set_fold_NoDup l s :
  NoDup s → NoDup (fold_left (fun s x => Js.Set_add x s) l s).
Proof.
  revert s. induction l as [|x l IH]; intros s Hs; simpl; [done|].
  by apply IH, Set_add_NoDup.
Qed.

Lemma Set_fold_fresh l s :
  NoDup (s ++ l) → fold_left (fun s x => Js.Set_add x s) l s = s ++ l.
Proof.
  revert s. induction l as [|x l IH]; intros s Hnd; simpl.
  - by rewrite app_nil_r.
  - assert (x ∉ s) as Hx.
    { apply NoDup_app in Hnd as (_ & Hdisj & _). intros Hin.
      apply (Hdisj x Hin). left. }
    unfold Js.Set_add at 2, Js.Set_has. rewrite bool_decide_false by done.
    rewrite IH; rewrite <- app_assoc; done.
Qed.

Lemma Set_fold_length l s :
  (length (fold_left (fun s x => Js.Set_add x s) l s) <= length s + length l)%nat.
Proof.
  revert s. induction l as [|x l IH]; intros s; simpl; [lia|].
  etrans; [apply IH|]. unfold Js.Set_add. destruct (Js.Set_has x s); [lia|].
  rewrite length_app. simpl. lia.
Qed.

Lemma Set_of_elem l y : y ∈ Js.Set_of l ↔ y ∈ l.
Proof. unfold Js.Set_of. rewrite Set_fold_elem, elem_of_nil. tauto. Qed.

Lemma Set_of_NoDup l : NoDup (Js.Set_of l).
Proof. apply Set_fold_NoDup, NoDup_nil_2. Qed.

Lemma Set_of_fresh l : NoDup l → Js.Set_of l = l.
Proof. intros Hl. unfold Js.Set_of. by rewrite Set_fold_fresh. Qed.

Lemma Set_has_true x s : Js.Set_has x s = true ↔ x ∈ s.
Proof. unfold Js.Set_has. apply bool_decide_eq_true. Qed.

(** ** The registry after [repopulate] *)

Lemma keyed_set t r : keyed r → keyed (Js.Map_set (name t) t r).
Proof.
  unfold keyed. induction r as [|[k v] r IH]; intros Hr; simpl.
  - by repeat constructor.
  - apply Forall_cons in Hr as [Hk Hr].
    destruct (decide (name t = k)) as [Heq|Hne].
    + by constructor.
    + constructor; [done | by apply IH].
Qed.

Lemma keyed_fold ts r :
  keyed r → keyed (fold_left (fun m t => Js.Map_set (name t) t m) ts r).
Proof.
  revert r. induction ts as [|t ts IH]; intros r Hr; simpl; [done|].
  by apply IH, keyed_set.
Qed.

Lemma keyed_names r :
  keyed r → List.map name (Registry.getTools r) = Js.Map_keys r.
Proof.
  unfold keyed, Registry.getTools, Js.Map_values, Js.Map_keys.
  induction 1 as [|[k v] r Hk _ IH]; simpl in *; [done|]. by rewrite Hk, IH.
Qed.

Lemma keys_fold ts (r : Registry.ToolRegistry) :
  Js.Map_keys (fold_left (fun m t => Js.Map_set (name t) t m) ts r)
  = fold_left (fun s x => Js.Set_add x s) (List.map name ts) (Js.Map_keys r).
Proof.
  revert r. induction ts as [|t ts IH]; intros r; simpl; [done|].
  rewrite IH. f_equal. apply Map_keys_set.
Qed.

Lemma keys_repopulate ts :
  Js.Map_keys (Registry.repopulate ts) = Js.Set_of (List.map name ts).
Proof. unfold Registry.repopulate. by rewrite keys_fold. Qed.

Lemma names_repopulate ts :
  List.map name (Registry.getTools (Registry.repopulate ts))
  = Js.Set_of (List.map name ts).
Proof.
  rewrite keyed_names; [apply keys_repopulate|].
  apply keyed_fold. constructor.
Qed.

Lemma get_fold_other n ts (r : Registry.ToolRegistry) :
  Forall (fun t => name t ≠ n) ts →
  Js.Map_get n (fold_left (fun m t => Js.Map_set (name t) t m) ts r)
  = Js.Map_get n r.
Proof.
  revert r. induction ts as [|t ts IH]; intros r Hts; simpl; [done|].
  apply Forall_cons in Hts as [Ht Hts].
  rewrite IH by done. by apply Map_get_set_ne.
Qed.

Lemma get_repopulate_last pre d post :
  Forall (fun t => name t ≠ name d) post →
  Registry.getTool (name d) (Registry.repopulate (pre ++ d :: post)) = Some d.
Proof.
  intros Hpost. unfold Registry.getTool, Registry.repopulate.
  rewrite fold_left_app. simpl. rewrite get_fold_other by done.
  apply Map_get_set_eq.
Qed.

Lemma length_repopulate ts :
  (length (Registry.getTools (Registry.repopulate ts)) <= length ts)%nat.
Proof.
  rewrite <- (length_map name), names_repopulate.
  unfold Js.Set_of. etrans; [apply Set_fold_length|].
  simpl. by rewrite length_map.
Qed.

Lemma length_repopulate_dup pre d post :
  name d ∈ List.map name pre →
  (length (Registry.getTools (Registry.repopulate (pre ++ d :: post)))
   < length (pre ++ d :: post))%nat.
Proof.
  intros Hdup. rewrite <- (length_map name), names_repopulate.
  unfold Js.Set_of. rewrite map_app, fold_left_app. simpl.
  unfold Js.Set_add at 2. rewrite (proj2 (Set_has_true _ _)).
  2:{ apply Set_fold_elem. by right. }
  eapply Nat.le_lt_trans; [apply Set_fold_length|].
  pose proof (Set_fold_length (List.map name pre) []) as Hpre.
  rewrite !length_app, !length_map in *. simpl in *. lia.
Qed.

Lemma filter_keep_all {A} (p : A → bool) (l : list A) :
  Forall (fun x => p x = true) l → List.filter p l = l.
Proof.
  induction 1 as [|x l Hx _ IH]; simpl; [done|]. by rewrite Hx, IH.
Qed.

Lemma filter_drop_all {A} (p : A → bool) (l : list A) :
  Forall (fun x => p x = false) l → List.filter p l = [].
Proof.
  induction 1 as [|x l Hx _ IH]; simpl; [done|]. by rewrite Hx, IH.
Qed.

(** ** Command Registry *)

(** C9. [clear()] on an empty registry changes nothing and emits
    nothing; on a registry that holds tools it empties the mapping and
    emits exactly one ['update'] event, with the empty tool list. *)
Theorem clear_noop_when_empty_else_one_update (r : Registry.ToolRegistry) :
  (Registry.size r = 0%nat → Registry.clear r = (r, []))
  ∧ (Registry.size r ≠ 0%nat →
     (Registry.clear r).1 = Registry.empty
     ∧ Registry.getTools (Registry.clear r).1 = []
     ∧ (Registry.clear r).2
       = [Registry.Log "[registry] Cleared all tools"; Registry.EmitUpdate []]
     ∧ Registry.updates (Registry.clear r).2 = [Registry.EmitUpdate []]).
Proof.
  unfold Registry.clear, Registry.size, Js.Map_size. split.
  - intros Hsz. destruct r; [done | discriminate].
  - intros Hsz. destruct r as [|kv r]; [done|]. simpl. done.
Qed.

Lemma clear_noop_when_empty_else_one_update_witness :
  Registry.clear Registry.empty = (Registry.empty, [])
  ∧ (Registry.clear [("a", Sample.tool_a)]).2
    = [Registry.Log "[registry] Cleared all tools"; Registry.EmitUpdate []].
Proof.
  split.
  - apply (proj1 (clear_noop_when_empty_else_one_update Registry.empty)).
    reflexivity.
  - apply (proj2 (clear_noop_when_empty_else_one_update [("a", Sample.tool_a)])).
    discriminate.
Defined.

(** C10. When a configuration holds several definitions of one name,
    [updateFromConfig] keeps the last: for a definition [d] that no
    later definition shares its name with, [getTool (name d)] returns
    [d]; [getTools] has exactly one entry for each distinct name of the
    configuration; it is never longer than the configuration, and it is
    shorter as soon as an earlier definition has the name of [d]. *)
Theorem updateFromConfig_last_write_wins
  (config : ToolsConfig) (r : Registry.ToolRegistry)
  (pre : list ToolDefinition) (d : ToolDefinition) (post : list ToolDefinition) :
  tools config = pre ++ d :: post →
  Forall (fun t => name t ≠ name d) post →
  let r' := (Registry.updateFromConfig config r).1 in
  Registry.getTool (name d) r' = Some d
  ∧ NoDup (List.map name (Registry.getTools r'))
  ∧ (∀ n, n ∈ List.map name (Registry.getTools r')
          ↔ n ∈ List.map name (tools config))
  ∧ (length (Registry.getTools r') <= length (tools config))%nat
  ∧ (name d ∈ List.map name pre →
     (length (Registry.getTools r') < length (tools config))%nat).
Proof.
  intros Hts Hpost r'. subst r'. unfold Registry.updateFromConfig. simpl.
  split_and!.
  - rewrite Hts. by apply get_repopulate_last.
  - rewrite names_repopulate. apply Set_of_NoDup.
  - intros n. rewrite names_repopulate. apply Set_of_elem.
  - apply length_repopulate.
  - intros Hdup. rewrite Hts. by apply length_repopulate_dup.
Qed.

Lemma updateFromConfig_last_write_wins_witness :
  let config := {| tools := [Sample.tool_a; Sample.tool_b; Sample.tool_a2] |} in
  let r' := (Registry.updateFromConfig config Registry.empty).1 in
  Registry.getTool "a" r' = Some Sample.tool_a2
  ∧ (length (Registry.getTools r') < 3)%nat.
Proof.
  intros config r'.
  destruct (updateFromConfig_last_write_wins config Registry.empty
              [Sample.tool_a; Sample.tool_b] Sample.tool_a2 [] eq_refl
              (Forall_nil_2 _)) as (Hget & _ & _ & _ & Hlt).
  split; [exact Hget|]. apply Hlt. simpl. left.
Defined.

(** C4, as the code has it.  Applying the same configuration a second
    time leaves the mapping as it is and reports no added and no removed
    name; every definition of the configuration is reported as updated,
    and one ['update'] event with the tool list is emitted. *)
Theorem updateFromConfig_twice (config : ToolsConfig) (r : Registry.ToolRegistry) :
  let r1 := (Registry.updateFromConfig config r).1 in
  let oldTools := Js.Set_of (Js.Map_keys r1) in
  let newTools := Js.Set_of (List.map name (tools config)) in
  (Registry.updateFromConfig config r1).1 = r1
  ∧ Registry.added config oldTools = []
  ∧ Registry.removed oldTools newTools = []
  ∧ Registry.updated config oldTools = tools config
  ∧ (Registry.updateFromConfig config r1).2
    = Registry.log_names "Updated" (List.map name (tools config))
        ++ [Registry.EmitUpdate (Registry.getTools r1)].
Proof.
  intros r1 oldTools newTools.
  assert (oldTools = newTools) as Hold.
  { subst oldTools newTools r1. unfold Registry.updateFromConfig. simpl.
    rewrite keys_repopulate. apply Set_of_fresh, Set_of_NoDup. }
  assert (Forall (fun t => Js.Set_has (name t) oldTools = true) (tools config)) as Hall.
  { rewrite Hold. apply Forall_forall. intros t Ht.
    apply Set_has_true, Set_of_elem, list_elem_of_In, in_map, list_elem_of_In, Ht. }
  assert (Registry.added config oldTools = []) as Hadded.
  { apply filter_drop_all. eapply Forall_impl; [exact Hall|].
    simpl. intros t ->. done. }
  assert (Registry.removed oldTools newTools = []) as Hremoved.
  { rewrite Hold. apply filter_drop_all, Forall_forall. intros n Hn.
    by rewrite (proj2 (Set_has_true _ _)). }
  assert (Registry.updated config oldTools = tools config) as Hupdated
    by (by apply filter_keep_all).
  split_and!; try done.
  unfold Registry.updateFromConfig. simpl. fold r1 oldTools newTools.
  by rewrite Hadded, Hremoved, Hupdated.
Qed.

(** C4, as the specification states it, fails: the second application
    of a one-tool configuration logs the tool as updated and emits an
    ['update'] event. *)
Lemma updateFromConfig_twice_is_not_silent :
  let config := {| tools := [Sample.tool_a] |} in
  let r1 := (Registry.updateFromConfig config Registry.empty).1 in
  (Registry.updateFromConfig config r1).2
  = [Registry.Log "[registry] Updated tools: a"; Registry.EmitUpdate [Sample.tool_a]]
  ∧ (Registry.updateFromConfig config r1).2 ≠ []
  ∧ Registry.updates (Registry.updateFromConfig config r1).2 ≠ [].
Proof. split_and!; [reflexivity | discriminate | discriminate]. Qed.

(** ** Change Watcher, wired to the registry *)

Lemma run_unfold op s :
  Server.run op s
  = ({| Server.watcher := (op (Server.watcher s)).1;
        Server.registry := (Server.deliver (op (Server.watcher s)).2 (Server.registry s)).1 |},
     (Server.deliver (op (Server.watcher s)).2 (Server.registry s)).2).
Proof.
  unfold Server.run. destruct (op (Server.watcher s)) as [w' es]. simpl.
  by destruct (Server.deliver es (Server.registry s)).
Qed.

Lemma deliver_one e r :
  Server.deliver [e] r = ((Server.handle e r).1, Server.Emitted e :: (Server.handle e r).2).
Proof.
  simpl. destruct (Server.handle e r) as [r1 o1]. simpl. by rewrite app_nil_r.
Qed.

Lemma handle_Change c r :
  Server.handle (Watcher.Change c) r
  = (Registry.repopulate (tools c),
     flat_map Server.observe (Registry.updateFromConfig c r).2).
Proof. done. Qed.

Lemma handle_Delete r :
  Server.handle Watcher.Delete r
  = (Registry.empty, flat_map Server.observe (Registry.clear r).2).
Proof. done. Qed.

Lemma parse_failure_errors path f :
  Parser.success (Parser.parseToolsJson path f) = false →
  ∃ errs, Parser.parseToolsJson path f = Parser.failure errs.
Proof. destruct f; simpl; intros H; try discriminate; eauto. Qed.

Lemma loadAndEmit_failure path fs w :
  Watcher.exists_ fs = true →
  Parser.success (Parser.parseToolsJson path (Watcher.content fs)) = false →
  ∃ errs,
    Parser.errors (Parser.parseToolsJson path (Watcher.content fs)) = Some errs
    ∧ (Watcher.loadAndEmit path fs w).2
      = [Watcher.Error ("Failed to parse tools.json: " +:+ Js.join ", " errs)]
    ∧ Watcher.lastConfig (Watcher.loadAndEmit path fs w).1 = Watcher.lastConfig w.
Proof.
  intros Hex Hfail. destruct (parse_failure_errors _ _ Hfail) as [errs Herrs].
  exists errs. unfold Watcher.loadAndEmit. rewrite Hex, Herrs. simpl.
  split_and!; [done | done |]. by destruct (Watcher.mtimeMs fs).
Qed.

Lemma loadAndEmit_accepted path fs w c :
  Watcher.exists_ fs = true →
  Watcher.content fs = Parser.Accepted c →
  (Watcher.loadAndEmit path fs w).2 = [Watcher.Change c]
  ∧ Watcher.lastConfig (Watcher.loadAndEmit path fs w).1 = Some c.
Proof.
  intros Hex Hc. unfold Watcher.loadAndEmit. rewrite Hex, Hc. by simpl.
Qed.


(** C3. A reload whose load or validation fails (the file is there, and
    [parseToolsJson] returns no success) emits one ['error'] event whose
    message carries the error list, and leaves [lastConfig] and the
    registry as they were; the same holds when the reload is started by
    a poll tick that saw a new modification time. *)
Theorem failed_reload_keeps_last_good
  (path : string) (fs : Watcher.FsView) (s : Server.State) :
  Watcher.exists_ fs = true →
  Parser.success (Parser.parseToolsJson path (Watcher.content fs)) = false →
  ∃ errs msg,
    Parser.errors (Parser.parseToolsJson path (Watcher.content fs)) = Some errs
    ∧ msg = "Failed to parse tools.json: " +:+ Js.join ", " errs
    ∧ (∀ i,
         (i = Server.Reload fs
          ∨ ∃ fs0 m, i = Server.Poll fs0 fs
                     ∧ Watcher.exists_ fs0 = true
                     ∧ Watcher.mtimeMs fs0 = Some m
                     ∧ m ≠ Watcher.lastMtime (Server.watcher s)) →
         (Server.step path i s).2
         = [Server.Emitted (Watcher.Error msg);
            Server.ServerLog ("[server] Watcher error: " +:+ msg)]
         ∧ Watcher.getLastConfig (Server.watcher (Server.step path i s).1)
           = Watcher.getLastConfig (Server.watcher s)
         ∧ Server.registry (Server.step path i s).1 = Server.registry s).
Proof.
  intros Hex Hfail.
  destruct (loadAndEmit_failure path fs (Server.watcher s) Hex Hfail)
    as (errs & Herrs & _).
  exists errs, ("Failed to parse tools.json: " +:+ Js.join ", " errs).
  split_and!; [done | done |].
  intros i [-> | (fs0 & m & -> & Hex0 & Hm & Hne)]; simpl; rewrite run_unfold; simpl.
  - destruct (loadAndEmit_failure path fs (Server.watcher s) Hex Hfail)
      as (errs' & Herrs' & Hev & Hcfg).
    rewrite Herrs in Herrs'. injection Herrs' as <-.
    rewrite Hev, deliver_one. unfold Watcher.getLastConfig. simpl. by rewrite Hcfg.
  - unfold Watcher.poll. rewrite Hex0, Hm. simpl.
    rewrite decide_True by done.
    destruct (loadAndEmit_failure path fs
                {| Watcher.lastMtime := m;
                   Watcher.lastConfig := Watcher.lastConfig (Server.watcher s) |}
                Hex Hfail) as (errs' & Herrs' & Hev & Hcfg).
    rewrite Herrs in Herrs'. injection Herrs' as <-.
    rewrite Hev, deliver_one. unfold Watcher.getLastConfig. simpl. by rewrite Hcfg.
Qed.

Lemma failed_reload_keeps_last_good_witness :
  (Server.step Sample.tools_json (Server.Reload Sample.broken) Sample.loaded).2
  = [Server.Emitted (Watcher.Error
       "Failed to parse tools.json: Invalid JSON: Unexpected end of JSON input");
     Server.ServerLog
       "[server] Watcher error: Failed to parse tools.json: Invalid JSON: Unexpected end of JSON input"]
  ∧ Server.registry
      (Server.step Sample.tools_json (Server.Reload Sample.broken) Sample.loaded).1
    = Server.registry Sample.loaded.
Proof.
  destruct (failed_reload_keeps_last_good Sample.tools_json Sample.broken
              Sample.loaded eq_refl eq_refl) as (errs & msg & Herrs & Hmsg & H).
  simpl in Herrs. injection Herrs as <-. simpl in Hmsg. subst msg.
  destruct (H (Server.Reload Sample.broken) (or_introl eq_refl)) as (Hobs & _ & Hreg).
  split; [exact Hobs | exact Hreg].
Defined.









(** C5, where the code departs from it.  [poll] emits ['delete'] only
    when a modification time is recorded, and [handleDelete] resets that
    time so that later poll ticks stay silent; but [handleDelete] itself
    has no guard.  When a poll tick finds the file absent before the
    unlink event of the same deletion is delivered, ['delete'] is
    emitted twice for the one deletion (the registry, empty after the
    first, emits nothing at the second). *)
Theorem poll_then_unlink_emits_delete_twice :
  let run := Server.steps Sample.tools_json
               [Server.Poll Sample.gone Sample.gone; Server.Unlink] Sample.loaded in
  run.2 = [Server.Emitted Watcher.Delete;
           Server.Reg (Registry.Log "[registry] Cleared all tools");
           Server.Reg (Registry.EmitUpdate []);
           Server.ServerLog "[server] Tools updated (0 tools available)";
           Server.Emitted Watcher.Delete]
  ∧ Server.deleted_events run.2 = 2%nat
  ∧ Server.registry run.1 = Registry.empty.
Proof. split_and!; reflexivity. Qed.

(** A reload that finds no file is silent: nothing is emitted and
    nothing changes. *)
Remark reload_of_absent_file_is_silent path fs s :
  Watcher.exists_ fs = false →
  Server.step path (Server.Reload fs) s = (s, []).
Proof.
  intros Habs. unfold Server.step. rewrite run_unfold.
  unfold Watcher.loadAndEmit. rewrite Habs. simpl. by destruct s.
Qed.

(** ** Execution Engine: the handlers and the event loop *)

Lemma append_cons a s t : String a s +:+ t = String a (s +:+ t).
Proof. done. Qed.

Lemma append_nil_r s : s +:+ EmptyString = s.
Proof. induction s as [|a s IH]; [done|]. by rewrite append_cons, IH. Qed.

Lemma append_assoc s t u : (s +:+ t) +:+ u = s +:+ (t +:+ u).
Proof. induction s as [|a s IH]; [done|]. by rewrite !append_cons, IH. Qed.

Lemma on_event_settled i tm e st r :
  Executor.settled st = Some r → Executor.settled (Executor.on_event i tm e st) = Some r.
Proof. intros H. destruct e; simpl; by rewrite ?H. Qed.

Lemma feed_settled i tm evs st r :
  Executor.settled st = Some r → Executor.settled (Executor.feed i tm evs st) = Some r.
Proof.
  revert st. induction evs as [|e evs IH]; intros st H; [done|].
  apply IH. by apply on_event_settled.
Qed.

Lemma drive_settled i tm d evs after st r :
  Executor.settled st = Some r →
  Executor.settled (Executor.drive i tm d evs after st) = Some r.
Proof.
  revert st. induction evs as [|[t e] evs IH]; intros st H; simpl.
  - destruct (Executor.timer_armed st); [by apply feed_settled | done].
  - destruct (Executor.timer_armed st && (d <=? t))%bool.
    + by apply feed_settled.
    + by apply IH, on_event_settled.
Qed.

(** From a state that is not settled, [feed] settles with the first
    ['close'] or ['error'] event, on the output captured until then. *)
Lemma feed_unsettled i tm evs st :
  Executor.settled st = None →
  let seen :=
    {| Executor.r_stdout := Executor.r_stdout st +:+ (captured evs).1;
       Executor.r_stderr := Executor.r_stderr st +:+ (captured evs).2;
       Executor.killed := Executor.killed st;
       Executor.timer_armed := Executor.timer_armed st;
       Executor.settled := None |} in
  match ending evs with
  | Some (Executor.CloseEvent c) =>
      Executor.settled (Executor.feed i tm evs st)
      = Some (Executor.close_result tm seen c)
  | Some (Executor.ErrorEvent m) =>
      Executor.settled (Executor.feed i tm evs st)
      = Some (Executor.error_result i seen m)
  | _ => Executor.feed i tm evs st = seen
  end.
Proof.
  revert st. induction evs as [|e evs IH]; intros st Hst; simpl.
  - rewrite !append_nil_r. destruct st; simpl in *. by subst.
  - destruct e as [d|d|m|c]; simpl.
    + specialize (IH (Executor.on_event i tm (Executor.StdoutData d) st) Hst).
      simpl in IH. by rewrite !append_assoc in IH.
    + specialize (IH (Executor.on_event i tm (Executor.StderrData d) st) Hst).
      simpl in IH. by rewrite !append_assoc in IH.
    + rewrite !append_nil_r. apply feed_settled. simpl. by rewrite Hst.
    + rewrite !append_nil_r. apply feed_settled. simpl. rewrite Hst.
      unfold Executor.close_result. simpl. done.
Qed.

Lemma ending_settles evs e :
  ending evs = Some e →
  (∃ c, e = Executor.CloseEvent c) ∨ (∃ m, e = Executor.ErrorEvent m).
Proof.
  induction evs as [|[d|d|m|c] evs IH]; simpl; intros H; try done; auto.
  - injection H as <-. eauto.
  - injection H as <-. eauto.
Qed.

Lemma resolve_first r st :
  Executor.settled st = None →
  Executor.settled (Executor.resolve r (Executor.clearTimeout st)) = Some r.
Proof. intros H. simpl. by rewrite H. Qed.

(** While the timer is armed, [drive] handles the events that come
    before the deadline; if none of them is a ['close'] or an ['error'],
    the timeout callback runs and the later events follow. *)
Lemma drive_armed i tm d evs after st :
  Executor.settled st = None →
  Executor.timer_armed st = true →
  match ending (before d evs) with
  | Some _ =>
      Executor.settled (Executor.drive i tm d evs after st)
      = Executor.settled (Executor.feed i tm (before d evs) st)
  | None =>
      Executor.drive i tm d evs after st
      = Executor.feed i tm after
          (Executor.on_timeout (Executor.feed i tm (before d evs) st))
  end.
Proof.
  revert st. induction evs as [|[t e] evs IH]; intros st Hst Harm; simpl.
  - by rewrite Harm.
  - rewrite Harm. simpl. destruct (d <=? t); simpl; [done|].
    destruct e as [data|data|m|c]; simpl.
    + by apply IH.
    + by apply IH.
    + erewrite drive_settled, feed_settled; [done | |]; by apply resolve_first.
    + erewrite drive_settled, feed_settled; [done | |]; by apply resolve_first.
Qed.

Lemma settled_start_closed i tm evs c :
  ending evs = Some (Executor.CloseEvent c) →
  Executor.settled (Executor.feed i tm evs Executor.start)
  = Some {| success := bool_decide (c = Some 0);
            stdout := (captured evs).1; stderr := (captured evs).2;
            exitCode := default 0 c; error := None |}.
Proof.
  intros He. pose proof (feed_unsettled i tm evs Executor.start eq_refl) as H.
  simpl in H. by rewrite He in H.
Qed.

Lemma settled_start_failed i tm evs m :
  ending evs = Some (Executor.ErrorEvent m) →
  Executor.settled (Executor.feed i tm evs Executor.start)
  = Some {| success := false;
            stdout := (captured evs).1; stderr := (captured evs).2;
            exitCode := 1; error := Some (Executor.spawn_message i m) |}.
Proof.
  intros He. pose proof (feed_unsettled i tm evs Executor.start eq_refl) as H.
  simpl in H. by rewrite He in H.
Qed.

(** After the timeout callback nothing settles with a success. *)
Lemma settled_after_timeout i tm early late r :
  ending early = None →
  Executor.settled
    (Executor.feed i tm late
       (Executor.on_timeout (Executor.feed i tm early Executor.start))) = Some r →
  success r = false
  ∧ (∀ c, ending late = Some (Executor.CloseEvent c) →
          r = {| success := false;
                 stdout := (captured early).1 +:+ (captured late).1;
                 stderr := (captured early).2 +:+ (captured late).2;
                 exitCode := default 1 c;
                 error := Some (Executor.timeout_message tm) |}).
Proof.
  intros He Hr.
  pose proof (feed_unsettled i tm early Executor.start eq_refl) as H.
  simpl in H. rewrite He in H. rewrite H in Hr. clear H.
  match type of Hr with
  | Executor.settled (Executor.feed _ _ _ ?st) = _ =>
      pose proof (feed_unsettled i tm late st eq_refl) as H
  end.
  simpl in H. destruct (ending late) as [[d|d|m|c]|] eqn:Hl.
  - apply ending_settles in Hl as [[? ?]|[? ?]]; done.
  - apply ending_settles in Hl as [[? ?]|[? ?]]; done.
  - rewrite H in Hr. injection Hr as <-. split; [done|]. intros c Hc. done.
  - rewrite H in Hr. injection Hr as <-. split; [done|].
    intros c' Hc. injection Hc as <-. done.
  - rewrite H in Hr. done.
Qed.

Section Execute.
Variables (interpreter : string) (w : Executor.World) (script : string)
  (environment : gmap string string) (tm : Z) (dir : string).

Let child : Executor.Child :=
  Executor.spawn w {| Executor.command := interpreter;
                      Executor.args := ["-c"; script];
                      Executor.env := environment; Executor.cwd := dir |}.
Let early : list Executor.ChildEvent :=
  before (Executor.timer_delay tm) (Executor.undisturbed child).
Let late : list Executor.ChildEvent := Executor.after_timeout child.
Let run : Executor.Promise ExecutionResult :=
  Executor.execute interpreter w script environment tm dir.

Hypothesis spawned : Executor.spawn_throws child = None.

Lemma execute_settled :
  run = match Executor.settled
                (Executor.drive interpreter tm (Executor.timer_delay tm)
                   (Executor.undisturbed child) late Executor.start) with
        | Some res => Executor.Resolved res
        | None => Executor.Pending
        end.
Proof. subst run. unfold Executor.execute. fold child. by rewrite spawned. Qed.

Lemma execute_not_thrown reason : run ≠ Executor.Thrown reason.
Proof. rewrite execute_settled. by destruct (Executor.settled _). Qed.

Lemma execute_closed c :
  ending early = Some (Executor.CloseEvent c) →
  run = Executor.Resolved
          {| success := bool_decide (c = Some 0);
             stdout := (captured early).1; stderr := (captured early).2;
             exitCode := default 0 c; error := None |}.
Proof.
  intros He. rewrite execute_settled.
  pose proof (drive_armed interpreter tm (Executor.timer_delay tm)
                (Executor.undisturbed child) late Executor.start eq_refl eq_refl) as Hd.
  fold early in Hd. rewrite He in Hd. rewrite Hd.
  by rewrite (settled_start_closed _ _ _ c He).
Qed.

Lemma execute_failed msg :
  ending early = Some (Executor.ErrorEvent msg) →
  run = Executor.Resolved
          {| success := false;
             stdout := (captured early).1; stderr := (captured early).2;
             exitCode := 1;
             error := Some ("Failed to spawn " +:+ interpreter +:+ ": " +:+ msg) |}.
Proof.
  intros He. rewrite execute_settled.
  pose proof (drive_armed interpreter tm (Executor.timer_delay tm)
                (Executor.undisturbed child) late Executor.start eq_refl eq_refl) as Hd.
  fold early in Hd. rewrite He in Hd. rewrite Hd.
  by rewrite (settled_start_failed _ _ _ msg He).
Qed.

Lemma execute_overrun :
  ending early = None →
  run = match Executor.settled
                (Executor.feed interpreter tm late
                   (Executor.on_timeout
                      (Executor.feed interpreter tm early Executor.start))) with
        | Some res => Executor.Resolved res
        | None => Executor.Pending
        end.
Proof.
  intros He. rewrite execute_settled.
  pose proof (drive_armed interpreter tm (Executor.timer_delay tm)
                (Executor.undisturbed child) late Executor.start eq_refl eq_refl) as Hd.
  fold early in Hd. rewrite He in Hd. by rewrite Hd.
Qed.

Lemma execute_overrun_fails res :
  ending early = None → run = Executor.Resolved res → success res = false.
Proof.
  intros He. rewrite (execute_overrun He).
  destruct (Executor.settled _) as [r|] eqn:Hr; [|done].
  intros [= ->]. by apply (settled_after_timeout interpreter tm early late).
Qed.

Lemma execute_timed_out c :
  ending early = None →
  ending late = Some (Executor.CloseEvent c) →
  run = Executor.Resolved
          {| success := false;
             stdout := (captured early).1 +:+ (captured late).1;
             stderr := (captured early).2 +:+ (captured late).2;
             exitCode := default 1 c;
             error := Some ("Execution timed out after " +:+ pretty tm +:+ "ms") |}.
Proof.
  intros He Hl. rewrite (execute_overrun He).
  pose proof (feed_unsettled interpreter tm early Executor.start eq_refl) as H.
  simpl in H. rewrite He in H.
  destruct (Executor.settled _) as [r|] eqn:Hr.
  - f_equal. by apply (settled_after_timeout interpreter tm early late r He Hr).
  - rewrite H in Hr.
    match type of Hr with
    | Executor.settled (Executor.feed _ _ _ ?st) = _ =>
        pose proof (feed_unsettled interpreter tm late st eq_refl) as H'
    end.
    rewrite Hl in H'. by rewrite H' in Hr.
Qed.

End Execute.

(** C6. A run that completes: the result is a success exactly when the
    child closed with exit code 0 before the timer came due; an exit
    code that was observed is reported as it is; when the timer came due
    first, whatever exit code follows, the result is a failure whose
    diagnostic states the configured timeout; an ['error'] event gives a
    failure with exit code 1 whose diagnostic carries the message of the
    error. *)
Theorem completed_run_is_normalized
  (interpreter : string) (w : Executor.World)
  (script : string) (environment : gmap string string) (tm : Z) (dir : string) :
  let child := Executor.spawn w
                 {| Executor.command := interpreter;
                    Executor.args := ["-c"; script];
                    Executor.env := environment; Executor.cwd := dir |} in
  let early := before (Executor.timer_delay tm) (Executor.undisturbed child) in
  let late := Executor.after_timeout child in
  let run := Executor.execute interpreter w script environment tm dir in
  Executor.spawn_throws child = None →
  (∀ c, ending early = Some (Executor.CloseEvent c) →
        run = Executor.Resolved
                {| success := bool_decide (c = Some 0);
                   stdout := (captured early).1; stderr := (captured early).2;
                   exitCode := default 0 c; error := None |})
  ∧ (∀ n, ending early = Some (Executor.CloseEvent (Some n)) →
          ∃ res, run = Executor.Resolved res ∧ exitCode res = n)
  ∧ (∀ c, ending early = None → ending late = Some (Executor.CloseEvent c) →
          run = Executor.Resolved
                  {| success := false;
                     stdout := (captured early).1 +:+ (captured late).1;
                     stderr := (captured early).2 +:+ (captured late).2;
                     exitCode := default 1 c;
                     error := Some ("Execution timed out after " +:+ pretty tm +:+ "ms") |})
  ∧ (∀ msg, ending early = Some (Executor.ErrorEvent msg) →
            run = Executor.Resolved
                    {| success := false;
                       stdout := (captured early).1; stderr := (captured early).2;
                       exitCode := 1;
                       error := Some ("Failed to spawn " +:+ interpreter +:+ ": " +:+ msg) |})
  ∧ (∀ res, run = Executor.Resolved res →
            (success res = true ↔ ending early = Some (Executor.CloseEvent (Some 0)))
            ∧ (ending early = None → success res = false)).
Proof.
  intros child early late run Hspawn. split_and!.
  - intros c He. by apply execute_closed.
  - intros n He. eexists. split; [by apply execute_closed | done].
  - intros c He Hl. by apply execute_timed_out.
  - intros msg He. by apply execute_failed.
  - intros res Hres. split; [|intros He; by eapply execute_overrun_fails].
    destruct (ending early) as [e|] eqn:He.
    + destruct (ending_settles _ _ He) as [[c ->]|[m ->]].
      * subst run. rewrite (execute_closed _ _ _ _ _ _ Hspawn c He) in Hres.
        injection Hres as <-. simpl.
        rewrite bool_decide_eq_true. split; [by intros -> | by intros [= ->]].
      * subst run. rewrite (execute_failed _ _ _ _ _ _ Hspawn m He) in Hres.
        injection Hres as <-. simpl. split; intros; done.
    + rewrite (execute_overrun_fails _ _ _ _ _ _ Hspawn res He Hres).
      split; intros; done.
Qed.

Lemma completed_run_is_normalized_witness :
  Executor.executeBash (Sample.world Sample.hello) "echo hello" ∅ 30000 "/work"
  = Executor.Resolved
      {| success := true; stdout := "hello"; stderr := EmptyString;
         exitCode := 0; error := None |}
  ∧ Executor.executeBash (Sample.world Sample.sleeper) "sleep 5; echo done" ∅ 100 "/work"
    = Executor.Resolved
        {| success := false; stdout := EmptyString; stderr := EmptyString;
           exitCode := 1; error := Some "Execution timed out after 100ms" |}.
Proof.
  split.
  - destruct (completed_run_is_normalized "bash" (Sample.world Sample.hello)
                "echo hello" ∅ 30000 "/work" eq_refl) as (Hclosed & _).
    exact (Hclosed (Some 0) eq_refl).
  - destruct (completed_run_is_normalized "bash" (Sample.world Sample.sleeper)
                "sleep 5; echo done" ∅ 100 "/work" eq_refl) as (_ & _ & Hlate & _).
    exact (Hlate None eq_refl eq_refl).
Defined.

(** ** Execution Engine: the timeout *)

Lemma timer_delay_below_one after : after < 1 → Executor.timer_delay after = 1.
Proof.
  intros H. unfold Executor.timer_delay.
  destruct (1 <=? after) eqn:Hle; [|done]. apply Z.leb_le in Hle. lia.
Qed.

Lemma timer_delay_in_range after :
  1 <= after <= Executor.TIMEOUT_MAX → Executor.timer_delay after = after.
Proof.
  intros [H1 H2]. unfold Executor.timer_delay.
  by rewrite (proj2 (Z.leb_le _ _) H1), (proj2 (Z.leb_le _ _) H2).
Qed.

(** The timeout [executeCommand] hands on is the [timeout] of the
    executor, and 30000 when the executor has none. *)
Lemma executeCommand_timeout w ex params root dir tool src env :
  Executor.build_env w params root dir tool = Some env →
  code ex = Some src → src ≠ EmptyString → type ex = "bash" →
  Executor.executeCommand w ex params root dir tool
  = Executor.executeBash w src env
      (match timeout ex with Some t => t | None => 30000 end) root.
Proof.
  intros Henv Hc Hne Hty. unfold Executor.executeCommand, Executor.dispatch.
  rewrite Henv, Hc, Hty. destruct src; [done|]. simpl. by destruct (timeout ex).
Qed.

(** C1, where the code departs from it.  With [timeout: -1] the value -1
    goes to [setTimeout] as it is, the timer comes due after one
    millisecond, and a script that would have ended by itself after five
    seconds with exit code 0 is signalled and reported as timed out. *)
Theorem timeout_minus_one_is_not_infinite :
  Executor.executeCommand (Sample.world Sample.sleeper)
    {| type := "bash"; code := Some "sleep 5; echo done"; file := None;
       timeout := Some (-1) |}
    [] "/work" "/work/.mcp" "nap"
  = Executor.Resolved
      {| success := false; stdout := EmptyString; stderr := EmptyString;
         exitCode := 1; error := Some "Execution timed out after -1ms" |}.
Proof. vm_compute. reflexivity. Qed.

(** The same for every script and every timeout below 1: a child that
    has neither closed nor failed within the first millisecond is
    signalled, and when it closes the run is reported as timed out. *)
Lemma timeout_below_one_comes_due_at_once
  (w : Executor.World) (ex : ToolExecutor) (params : list (string * Js.Value))
  (root dir tool src : string) (env : gmap string string) (t : Z) (c : option Z) :
  let child := Executor.spawn w
                 {| Executor.command := "bash"; Executor.args := ["-c"; src];
                    Executor.env := env; Executor.cwd := root |} in
  Executor.build_env w params root dir tool = Some env →
  code ex = Some src → src ≠ EmptyString → type ex = "bash" →
  timeout ex = Some t → t < 1 →
  Executor.spawn_throws child = None →
  ending (before 1 (Executor.undisturbed child)) = None →
  ending (Executor.after_timeout child) = Some (Executor.CloseEvent c) →
  ∃ res, Executor.executeCommand w ex params root dir tool = Executor.Resolved res
         ∧ success res = false
         ∧ error res = Some ("Execution timed out after " +:+ pretty t +:+ "ms").
Proof.
  intros child Henv Hc Hne Hty Ht Hlt Hspawn Hearly Hlate.
  rewrite (executeCommand_timeout w ex params root dir tool src env Henv Hc Hne Hty), Ht.
  unfold Executor.executeBash.
  rewrite (execute_timed_out "bash" w src _ t root Hspawn c).
  - eexists. split_and!; done.
  - by rewrite timer_delay_below_one.
  - done.
Qed.

(** The same script under the default timeout, and under a timeout of
    six seconds, runs to its end. *)
Remark sleeper_completes_within_six_seconds :
  ∀ t, t = None ∨ t = Some 6000 →
    Executor.executeCommand (Sample.world Sample.sleeper)
      {| type := "bash"; code := Some "sleep 5; echo done"; file := None;
         timeout := t |}
      [] "/work" "/work/.mcp" "nap"
    = Executor.Resolved
        {| success := true; stdout := "done"; stderr := EmptyString;
           exitCode := 0; error := None |}.
Proof. intros t [-> | ->]; vm_compute; reflexivity. Qed.

(** ** Execution Engine: reaching the code to run *)

Lemma truthy_Some (o : option string) :
  Js.truthy o = true ↔ ∃ v, o = Some v ∧ v ≠ EmptyString.
Proof.
  destruct o as [[|a v]|]; simpl; split; try done.
  - intros (v & [= <-] & Hv). done.
  - intros _. eauto.
  - intros (v & ? & _). done.
Qed.

Lemma executeCommand_uncoercible w ex params root dir tool :
  Executor.build_env w params root dir tool = None →
  Executor.executeCommand w ex params root dir tool
  = Executor.Thrown Js.TypeError_message.
Proof. intros Henv. unfold Executor.executeCommand. by rewrite Henv. Qed.

Lemma executeCommand_inline w ex params root dir tool src env :
  Executor.build_env w params root dir tool = Some env →
  code ex = Some src → src ≠ EmptyString →
  Executor.executeCommand w ex params root dir tool
  = Executor.dispatch w ex src env
      (default Executor.DEFAULT_TIMEOUT (timeout ex)) root.
Proof.
  intros Henv Hc Hne. unfold Executor.executeCommand. rewrite Henv, Hc.
  destruct src; [done|]. done.
Qed.

Lemma executeCommand_file w ex params root dir tool f env :
  Executor.build_env w params root dir tool = Some env →
  Js.truthy (code ex) = false → file ex = Some f → f ≠ EmptyString →
  Executor.executeCommand w ex params root dir tool
  = if Executor.existsSync w (Executor.path_join w dir f) then
      match Executor.readFile w (Executor.path_join w dir f) with
      | inl src =>
          Executor.dispatch w ex src env
            (default Executor.DEFAULT_TIMEOUT (timeout ex)) root
      | inr reason => Executor.Thrown reason
      end
    else Executor.Resolved
           (Executor.failed ("Script file not found: " +:+ Executor.path_join w dir f)).
Proof.
  intros Henv Hc Hf Hne. unfold Executor.executeCommand. rewrite Henv, Hc, Hf.
  destruct f; [done|]. simpl. by destruct (Executor.existsSync w _).
Qed.

Lemma executeCommand_resolved w ex params root dir tool src env :
  Executor.build_env w params root dir tool = Some env →
  resolves_to w ex dir src →
  Executor.executeCommand w ex params root dir tool
  = Executor.dispatch w ex src env
      (default Executor.DEFAULT_TIMEOUT (timeout ex)) root.
Proof.
  intros Henv [[Ht Hc] | (Hc & Ht & f & Hf & Hex & Hrd)].
  - apply executeCommand_inline; [done | done |].
    apply truthy_Some in Ht as (v & Hv & Hne). congruence.
  - apply truthy_Some in Ht as (v & Hv & Hne).
    assert (v = f) as -> by congruence.
    rewrite (executeCommand_file w ex params root dir tool f env) by done.
    by rewrite Hex, Hrd.
Qed.

Lemma dispatch_interpreter w ex src env tm root interpreter :
  (type ex = "bash" ∧ interpreter = "bash")
  ∨ (type ex = "python" ∧ interpreter = "python3") →
  Executor.dispatch w ex src env tm root
  = Executor.execute interpreter w src env tm root.
Proof.
  intros Hty. unfold Executor.dispatch.
  destruct Hty as [[-> ->] | [Hty ->]]; [done|]. by rewrite Hty.
Qed.

(** ** Execution Engine: the environment of the child *)













(** ** Execution Engine: the source of the code, and failures *)

(** C8, as the code has it.  Inline code that is present and not empty
    is the code that runs.  Otherwise a file reference that is present
    and not empty is joined to the configuration directory: when no file
    is there the result is the [Script file not found] failure, and when
    the file is there and is read, its contents are the code that runs.
    The code that runs is the script of [bash -c] or [python3 -c].  (All
    this once the environment is built; when a parameter value cannot be
    turned into a string the run is rejected before.) *)
Theorem source_resolution
  (w : Executor.World) (ex : ToolExecutor) (params : list (string * Js.Value))
  (root dir tool : string) :
  let run := Executor.executeCommand w ex params root dir tool in
  let built := Executor.build_env w params root dir tool in
  let tm := default Executor.DEFAULT_TIMEOUT (timeout ex) in
  (∀ env src, built = Some env → code ex = Some src → src ≠ EmptyString →
              run = Executor.dispatch w ex src env tm root)
  ∧ (∀ env f, built = Some env →
              Js.truthy (code ex) = false → file ex = Some f → f ≠ EmptyString →
              let scriptPath := Executor.path_join w dir f in
              (Executor.existsSync w scriptPath = false →
               run = Executor.Resolved
                       {| success := false; stdout := EmptyString;
                          stderr := EmptyString; exitCode := 1;
                          error := Some ("Script file not found: " +:+ scriptPath) |})
              ∧ (∀ src, Executor.existsSync w scriptPath = true →
                        Executor.readFile w scriptPath = inl src →
                        run = Executor.dispatch w ex src env tm root))
  ∧ (∀ env src, type ex = "bash" →
                Executor.dispatch w ex src env tm root
                = Executor.execute "bash" w src env tm root)
  ∧ (∀ env src, type ex = "python" →
                Executor.dispatch w ex src env tm root
                = Executor.execute "python3" w src env tm root)
  ∧ (built = None → run = Executor.Thrown Js.TypeError_message).
Proof.
  intros run built tm. split_and!.
  - intros env src Henv Hc Hne. by apply executeCommand_inline.
  - intros env f Henv Hc Hf Hne scriptPath. subst run.
    rewrite (executeCommand_file w ex params root dir tool f env) by done.
    fold scriptPath. split.
    + by intros ->.
    + by intros src -> ->.
  - intros env src Hty. unfold Executor.dispatch. by rewrite Hty.
  - intros env src Hty. unfold Executor.dispatch. by rewrite Hty.
  - intros Hnone. by apply executeCommand_uncoercible.
Qed.

Lemma source_resolution_witness :
  Executor.executeCommand (Sample.world Sample.hello)
    {| type := "bash"; code := Some "echo hello"; file := None; timeout := None |}
    [] "/work" "/work/.mcp" "greet"
  = Executor.Resolved
      {| success := true; stdout := "hello"; stderr := EmptyString;
         exitCode := 0; error := None |}
  ∧ Executor.executeCommand (Sample.world Sample.hello)
      {| type := "bash"; code := None; file := Some "greet.sh"; timeout := None |}
      [] "/work" "/work/.mcp" "greet"
    = Executor.Resolved
        {| success := false; stdout := EmptyString; stderr := EmptyString;
           exitCode := 1;
           error := Some "Script file not found: /work/.mcp/greet.sh" |}.
Proof.
  split.
  - destruct (source_resolution (Sample.world Sample.hello)
                {| type := "bash"; code := Some "echo hello"; file := None;
                   timeout := None |}
                [] "/work" "/work/.mcp" "greet") as (Hinline & _ & Hbash & _).
    rewrite (Hinline _ "echo hello" eq_refl eq_refl); [|discriminate].
    rewrite (Hbash _ "echo hello" eq_refl). reflexivity.
  - destruct (source_resolution (Sample.world Sample.hello)
                {| type := "bash"; code := None; file := Some "greet.sh";
                   timeout := None |}
                [] "/work" "/work/.mcp" "greet") as (_ & Hfile & _).
    destruct (Hfile _ "greet.sh" eq_refl eq_refl eq_refl) as [Hmissing _]; [discriminate|].
    apply Hmissing. reflexivity.
Defined.

(** C8, as the specification states it, fails: inline code that is
    present but empty is not run.  The executor is reported to have
    neither code nor file, where running the empty script would have
    succeeded. *)
Lemma empty_inline_code_is_not_run :
  let ex := {| type := "bash"; code := Some EmptyString; file := None;
               timeout := None |} in
  let w := Sample.world Sample.quiet in
  ∃ env, Executor.build_env w [] "/work" "/work/.mcp" "noop" = Some env
  ∧ Executor.executeCommand w ex [] "/work" "/work/.mcp" "noop"
    = Executor.Resolved (Executor.failed Executor.missing_source_message)
  ∧ Executor.executeBash w EmptyString env 30000 "/work"
    = Executor.Resolved
        {| success := true; stdout := EmptyString; stderr := EmptyString;
           exitCode := 0; error := None |}
  ∧ Executor.executeCommand w ex [] "/work" "/work/.mcp" "noop"
    ≠ Executor.executeBash w EmptyString env 30000 "/work".
Proof.
  eexists. split_and!; [reflexivity | reflexivity | reflexivity | discriminate].
Qed.

Lemma dispatch_not_thrown w ex src env tm root reason :
  (∀ interpreter,
     (type ex = "bash" ∧ interpreter = "bash")
     ∨ (type ex = "python" ∧ interpreter = "python3") →
     Executor.spawn_throws
       (Executor.spawn w {| Executor.command := interpreter;
                            Executor.args := ["-c"; src];
                            Executor.env := env; Executor.cwd := root |}) = None) →
  Executor.dispatch w ex src env tm root ≠ Executor.Thrown reason.
Proof.
  intros Hspawn. unfold Executor.dispatch, Executor.executeBash, Executor.executePython.
  case_decide as Hb; [apply execute_not_thrown, Hspawn; by left|].
  case_decide as Hp; [apply execute_not_thrown, Hspawn; by right|].
  done.
Qed.

(** C2, as the code has it.  When every parameter value can be turned
    into a string (the environment is built), the script file, if one
    is read, is read without error, and the [spawn] that is made does
    not throw, [executeCommand] never rejects; and each of these
    failures is a result with [success = false] and a diagnostic:
    neither code nor file, a script file that is missing, an executor
    type that is not known (the diagnostic names it), an ['error'] event
    of the child, a timeout after which the child closes. *)
Theorem failures_are_results
  (w : Executor.World) (ex : ToolExecutor) (params : list (string * Js.Value))
  (root dir tool : string) (env : gmap string string) :
  let run := Executor.executeCommand w ex params root dir tool in
  let tm := default Executor.DEFAULT_TIMEOUT (timeout ex) in
  let scriptPath := Executor.path_join w dir (default EmptyString (file ex)) in
  Executor.build_env w params root dir tool = Some env →
  (Js.truthy (code ex) = false → Js.truthy (file ex) = true →
   Executor.existsSync w scriptPath = true →
   ∀ reason, Executor.readFile w scriptPath ≠ inr reason) →
  (∀ src interpreter,
     resolves_to w ex dir src →
     (type ex = "bash" ∧ interpreter = "bash")
     ∨ (type ex = "python" ∧ interpreter = "python3") →
     Executor.spawn_throws
       (Executor.spawn w {| Executor.command := interpreter;
                            Executor.args := ["-c"; src];
                            Executor.env := env; Executor.cwd := root |}) = None) →
  (∀ reason, run ≠ Executor.Thrown reason)
  ∧ (Js.truthy (code ex) = false → Js.truthy (file ex) = false →
     run = Executor.Resolved
             {| success := false; stdout := EmptyString; stderr := EmptyString;
                exitCode := 1; error := Some Executor.missing_source_message |})
  ∧ (Js.truthy (code ex) = false → Js.truthy (file ex) = true →
     Executor.existsSync w scriptPath = false →
     run = Executor.Resolved
             {| success := false; stdout := EmptyString; stderr := EmptyString;
                exitCode := 1;
                error := Some ("Script file not found: " +:+ scriptPath) |})
  ∧ (∀ src, resolves_to w ex dir src → type ex ≠ "bash" → type ex ≠ "python" →
       run = Executor.Resolved
               {| success := false; stdout := EmptyString; stderr := EmptyString;
                  exitCode := 1;
                  error := Some ("Unknown executor type: " +:+ type ex) |})
  ∧ (∀ src interpreter,
       resolves_to w ex dir src →
       (type ex = "bash" ∧ interpreter = "bash")
       ∨ (type ex = "python" ∧ interpreter = "python3") →
       let child := Executor.spawn w
                      {| Executor.command := interpreter;
                         Executor.args := ["-c"; src];
                         Executor.env := env; Executor.cwd := root |} in
       let early := before (Executor.timer_delay tm) (Executor.undisturbed child) in
       (∀ msg, ending early = Some (Executor.ErrorEvent msg) →
          ∃ res, run = Executor.Resolved res ∧ success res = false
                 ∧ error res = Some ("Failed to spawn " +:+ interpreter +:+ ": " +:+ msg))
       ∧ (∀ c, ending early = None →
               ending (Executor.after_timeout child) = Some (Executor.CloseEvent c) →
          ∃ res, run = Executor.Resolved res ∧ success res = false
                 ∧ error res = Some ("Execution timed out after " +:+ pretty tm +:+ "ms"))).
Proof.
  intros run tm scriptPath Henv Hread Hspawn. split_and!.
  - intros reason. subst run. unfold Executor.executeCommand. rewrite Henv.
    fold tm scriptPath.
    destruct (Js.truthy (code ex)) eqn:Hc.
    { apply dispatch_not_thrown. intros interpreter Hty.
      apply Hspawn; [|done]. left. split; [done|].
      apply truthy_Some in Hc as (v & -> & _). done. }
    destruct (Js.truthy (file ex)) eqn:Hf; [|done].
    destruct (Executor.existsSync w scriptPath) eqn:Hex; simpl; [|done].
    destruct (Executor.readFile w scriptPath) as [src|r] eqn:Hr.
    + apply dispatch_not_thrown. intros interpreter Hty.
      apply Hspawn; [|done]. right. split_and!; [done | done |].
      apply truthy_Some in Hf as (f & Hfile & _). exists f.
      subst scriptPath. rewrite Hfile in *. simpl in *. done.
    + by destruct (Hread eq_refl eq_refl eq_refl r).
  - intros Hc Hf. subst run. unfold Executor.executeCommand. by rewrite Henv, Hc, Hf.
  - intros Hc Hf Hex. subst run. unfold Executor.executeCommand.
    fold scriptPath. by rewrite Henv, Hc, Hf, Hex.
  - intros src Hsrc Hb Hp. subst run.
    rewrite (executeCommand_resolved w ex params root dir tool src env Henv Hsrc).
    unfold Executor.dispatch. by rewrite !decide_False.
  - intros src interpreter Hsrc Hty child early. subst run.
    rewrite (executeCommand_resolved w ex params root dir tool src env Henv Hsrc).
    fold tm. rewrite (dispatch_interpreter _ _ _ _ _ _ interpreter Hty).
    pose proof (Hspawn src interpreter Hsrc Hty) as Hchild.
    split.
    + intros msg He. eexists. split; [|split].
      * by apply (execute_failed interpreter w src env tm root Hchild).
      * done.
      * done.
    + intros c He Hl. eexists. split; [|split].
      * by apply (execute_timed_out interpreter w src env tm root Hchild c).
      * done.
      * done.
Qed.

Lemma failures_are_results_witness :
  Executor.executeCommand (Sample.world_with_script Sample.no_interpreter)
    {| type := "bash"; code := None; file := Some "run.sh"; timeout := None |}
    [] "/work" "/work/.mcp" "run"
  = Executor.Resolved
      {| success := false; stdout := EmptyString; stderr := EmptyString;
         exitCode := 1; error := Some "Failed to spawn bash: spawn bash ENOENT" |}
  ∧ Executor.executeCommand (Sample.world_with_script Sample.hello)
      {| type := "ruby"; code := Some "puts 1"; file := None; timeout := None |}
      [] "/work" "/work/.mcp" "run"
    = Executor.Resolved
        {| success := false; stdout := EmptyString; stderr := EmptyString;
           exitCode := 1; error := Some "Unknown executor type: ruby" |}.
Proof.
  split.
  - destruct (failures_are_results (Sample.world_with_script Sample.no_interpreter)
                {| type := "bash"; code := None; file := Some "run.sh"; timeout := None |}
                [] "/work" "/work/.mcp" "run" _ eq_refl)
      as (_ & _ & _ & _ & Hchild); [discriminate | reflexivity |].
    destruct (Hchild "echo hello" "bash") as [Hfail _].
    + right. split_and!; [reflexivity | reflexivity |].
      exists "run.sh". split_and!; reflexivity.
    + left. split; reflexivity.
    + destruct (Hfail "spawn bash ENOENT" eq_refl) as (res & Hres & _).
      rewrite Hres. vm_compute in Hres. exact (eq_sym Hres).
  - destruct (failures_are_results (Sample.world_with_script Sample.hello)
                {| type := "ruby"; code := Some "puts 1"; file := None; timeout := None |}
                [] "/work" "/work/.mcp" "run" _ eq_refl)
      as (_ & _ & _ & Hunknown & _); [discriminate | reflexivity |].
    apply (Hunknown "puts 1"); [left; split; reflexivity | discriminate | discriminate].
Defined.

(** C2, as the specification states it, fails: when the file reference
    names something that exists and cannot be read (a directory), the
    promise of [executeCommand] is rejected with the error of
    [readFile]; no result is produced. *)
Lemma unreadable_script_rejects :
  let run := Executor.executeCommand (Sample.world_of_directories Sample.hello)
               {| type := "bash"; code := None; file := Some "scripts";
                  timeout := None |}
               [] "/work" "/work/.mcp" "run" in
  run = Executor.Thrown "EISDIR: illegal operation on a directory, read"
  ∧ ∀ res, run ≠ Executor.Resolved res.
Proof. split; [reflexivity | discriminate]. Qed.

(* ===================================================================== *)
(** * Further properties of the sources                                  *)
(* ===================================================================== *)

(** ** Command Registry: lookups, order and the reported diff *)

Lemma Map_get_None_keys {V} (k : string) (m : Js.Map V) :
  Js.Map_get k m = None ↔ k ∉ Js.Map_keys m.
Proof.
  induction m as [|[k' v'] m IH]; simpl.
  - split; [intros _; apply not_elem_of_nil | done].
  - destruct (decide (k = k')) as [->|Hne].
    + split; [done | intros H; exfalso; apply H; left].
    + rewrite IH. unfold Js.Map_keys. simpl. rewrite not_elem_of_cons. tauto.
Qed.

Lemma Map_set_fresh {V} (k : string) (v : V) (m : Js.Map V) :
  k ∉ Js.Map_keys m → Js.Map_set k v m = m ++ [(k, v)].
Proof.
  induction m as [|[k' v'] m IH]; simpl; [done|].
  intros Hk. apply not_elem_of_cons in Hk as [Hne Hk].
  rewrite decide_False by done. by rewrite IH.
Qed.

Lemma fold_set_fresh ts (r : Registry.ToolRegistry) :
  NoDup (Js.Map_keys r ++ List.map name ts) →
  fold_left (fun m t => Js.Map_set (name t) t m) ts r
  = r ++ List.map (fun t => (name t, t)) ts.
Proof.
  revert r. induction ts as [|t ts IH]; intros r Hnd; simpl.
  - by rewrite app_nil_r.
  - simpl in Hnd. assert (name t ∉ Js.Map_keys r) as Ht.
    { apply NoDup_app in Hnd as (_ & Hdisj & _). intros Hin.
      apply (Hdisj _ Hin). left. }
    rewrite Map_set_fresh by done. rewrite IH.
    + by rewrite <- app_assoc.
    + unfold Js.Map_keys in *. rewrite map_app. simpl.
      rewrite <- app_assoc. done.
Qed.

Lemma get_fold_source n t ts (r : Registry.ToolRegistry) :
  Js.Map_get n (fold_left (fun m t => Js.Map_set (name t) t m) ts r) = Some t →
  (t ∈ ts ∧ name t = n) ∨ Js.Map_get n r = Some t.
Proof.
  revert r. induction ts as [|t0 ts IH]; intros r H; simpl in *; [by right|].
  apply IH in H as [[Hin Hn] | H].
  - left. split; [by right | done].
  - destruct (decide (name t0 = n)) as [Heq|Hne].
    + rewrite <- Heq, Map_get_set_eq in H. injection H as <-.
      left. split; [left | done].
    + rewrite Map_get_set_ne in H by done. by right.
Qed.

Lemma getTool_after_update_aux
  (config : ToolsConfig) (r : Registry.ToolRegistry) (n : string) :
  (Registry.getTool n (Registry.updateFromConfig config r).1 = None
   ↔ n ∉ List.map name (tools config))
  ∧ (∀ t, Registry.getTool n (Registry.updateFromConfig config r).1 = Some t →
          name t = n ∧ t ∈ tools config).
Proof.
  unfold Registry.updateFromConfig. simpl. split.
  - unfold Registry.getTool. rewrite Map_get_None_keys, keys_repopulate.
    by rewrite Set_of_elem.
  - intros t Ht. apply get_fold_source in Ht as [[Hin Hn] | Ht]; [done | done].
Qed.

(** X1. When the names of a configuration are distinct, [getTools]
    after [updateFromConfig] is the list of its definitions, in the
    declared order. *)
Theorem getTools_declared_order (config : ToolsConfig) (r : Registry.ToolRegistry) :
  NoDup (List.map name (tools config)) →
  Registry.getTools (Registry.updateFromConfig config r).1 = tools config.
Proof.
  intros Hnd. unfold Registry.updateFromConfig, Registry.repopulate. simpl.
  rewrite fold_set_fresh by done. simpl.
  unfold Registry.getTools, Js.Map_values. rewrite map_map. simpl.
  apply map_id.
Qed.

Lemma getTools_declared_order_witness :
  Registry.getTools
    (Registry.updateFromConfig {| tools := [Sample.tool_b; Sample.tool_a] |}
       (Registry.repopulate [Sample.tool_a2])).1
  = [Sample.tool_b; Sample.tool_a].
Proof.
  apply (getTools_declared_order {| tools := [Sample.tool_b; Sample.tool_a] |}).
  apply (bool_decide_unpack _). vm_compute. exact I.
Defined.

(** X2. After [updateFromConfig], [getTool] misses exactly the names
    the configuration does not declare; what it finds bears the name
    asked for and is a definition of the configuration; [hasTool]
    agrees with [getTool]. *)
Theorem getTool_after_update
  (config : ToolsConfig) (r : Registry.ToolRegistry) (n : string) :
  let r' := (Registry.updateFromConfig config r).1 in
  (Registry.getTool n r' = None ↔ n ∉ List.map name (tools config))
  ∧ (∀ t, Registry.getTool n r' = Some t → name t = n ∧ t ∈ tools config)
  ∧ (Registry.hasTool n r' = true ↔ n ∈ List.map name (tools config)).
Proof.
  intros r'. subst r'. unfold Registry.updateFromConfig. simpl.
  assert (Registry.getTool n (Registry.repopulate (tools config)) = None
          ↔ n ∉ List.map name (tools config)) as Hnone.
  { unfold Registry.getTool. rewrite Map_get_None_keys, keys_repopulate.
    by rewrite Set_of_elem. }
  split_and!.
  - exact Hnone.
  - intros t Ht. apply get_fold_source in Ht as [[Hin Hn] | Ht]; [done | done].
  - unfold Registry.hasTool, Js.Map_has.
    fold (Registry.getTool n (Registry.repopulate (tools config))).
    destruct (Registry.getTool n (Registry.repopulate (tools config))) eqn:Hg.
    + split; [intros _ | done].
      destruct (decide (n ∈ List.map name (tools config))) as [|Hn]; [done|].
      apply Hnone in Hn. congruence.
    + split; [done|]. intros Hin. by apply Hnone in Hin.
Qed.

(** X3. The diff [updateFromConfig] reports: a definition is listed as
    added when its name was not a key of the registry and as updated
    when it was, so every definition is in exactly one of the two lists;
    the removed names are the old keys the configuration no longer
    declares. *)
Theorem reported_diff (config : ToolsConfig) (r : Registry.ToolRegistry) :
  let oldTools := Js.Set_of (Js.Map_keys r) in
  let newTools := Js.Set_of (List.map name (tools config)) in
  (∀ t, t ∈ Registry.added config oldTools
        ↔ t ∈ tools config ∧ name t ∉ Js.Map_keys r)
  ∧ (∀ t, t ∈ Registry.updated config oldTools
          ↔ t ∈ tools config ∧ name t ∈ Js.Map_keys r)
  ∧ (∀ n, n ∈ Registry.removed oldTools newTools
          ↔ n ∈ Js.Map_keys r ∧ n ∉ List.map name (tools config))
  ∧ (length (Registry.added config oldTools)
     + length (Registry.updated config oldTools) = length (tools config))%nat.
Proof.
  intros oldTools newTools.
  assert (∀ x, Js.Set_has x oldTools = true ↔ x ∈ Js.Map_keys r) as Hold.
  { intros x. subst oldTools. by rewrite Set_has_true, Set_of_elem. }
  assert (∀ x, Js.Set_has x newTools = true ↔ x ∈ List.map name (tools config)) as Hnew.
  { intros x. subst newTools. by rewrite Set_has_true, Set_of_elem. }
  split_and!.
  - intros t. unfold Registry.added.
    rewrite list_elem_of_In, filter_In, <- list_elem_of_In, negb_true_iff.
    rewrite <- Hold. by destruct (Js.Set_has (name t) oldTools); intuition.
  - intros t. unfold Registry.updated.
    rewrite list_elem_of_In, filter_In, <- list_elem_of_In. by rewrite Hold.
  - intros n. unfold Registry.removed.
    rewrite list_elem_of_In, filter_In, <- list_elem_of_In, negb_true_iff.
    rewrite <- Hnew. subst oldTools. rewrite Set_of_elem.
    by destruct (Js.Set_has n newTools); intuition.
  - unfold Registry.added, Registry.updated. clear Hnew. clear newTools.
    induction (tools config) as [|t ts IH]; simpl; [done|].
    destruct (Js.Set_has (name t) oldTools); simpl; lia.
Qed.

(** ** Change Watcher and registry: what a run of the server keeps *)

Lemma loadAndEmit_cases path fs w :
  ((Watcher.loadAndEmit path fs w).2 = []
   ∧ Watcher.lastConfig (Watcher.loadAndEmit path fs w).1 = Watcher.lastConfig w)
  ∨ (∃ msg, (Watcher.loadAndEmit path fs w).2 = [Watcher.Error msg]
            ∧ Watcher.lastConfig (Watcher.loadAndEmit path fs w).1 = Watcher.lastConfig w)
  ∨ (∃ c, (Watcher.loadAndEmit path fs w).2 = [Watcher.Change c]
          ∧ Watcher.lastConfig (Watcher.loadAndEmit path fs w).1 = Some c).
Proof.
  unfold Watcher.loadAndEmit.
  destruct (Watcher.exists_ fs); simpl; [|by left].
  destruct (Watcher.content fs), (Watcher.mtimeMs fs); simpl; eauto 6.
Qed.

Lemma poll_cases path fs fs' w :
  ((Watcher.poll path fs fs' w).2 = []
   ∧ Watcher.lastConfig (Watcher.poll path fs fs' w).1 = Watcher.lastConfig w)
  ∨ (∃ msg, (Watcher.poll path fs fs' w).2 = [Watcher.Error msg]
            ∧ Watcher.lastConfig (Watcher.poll path fs fs' w).1 = Watcher.lastConfig w)
  ∨ (∃ c, (Watcher.poll path fs fs' w).2 = [Watcher.Change c]
          ∧ Watcher.lastConfig (Watcher.poll path fs fs' w).1 = Some c)
  ∨ ((Watcher.poll path fs fs' w).2 = [Watcher.Delete]
     ∧ Watcher.lastConfig (Watcher.poll path fs fs' w).1 = None).
Proof.
  assert (∀ w, ((Watcher.poll_deleted w).2 = []
                ∧ Watcher.lastConfig (Watcher.poll_deleted w).1 = Watcher.lastConfig w)
               ∨ ((Watcher.poll_deleted w).2 = [Watcher.Delete]
                  ∧ Watcher.lastConfig (Watcher.poll_deleted w).1 = None)) as Hdel.
  { intros w0. unfold Watcher.poll_deleted. case_decide; simpl; auto. }
  unfold Watcher.poll. destruct (Watcher.exists_ fs); simpl.
  - destruct (Watcher.mtimeMs fs) as [m|].
    + case_decide; simpl; [|by left].
      destruct (loadAndEmit_cases path fs'
                  {| Watcher.lastMtime := m; Watcher.lastConfig := Watcher.lastConfig w |})
        as [H1 | [H2 | H3]]; auto.
    + destruct (Hdel w) as [H1 | H2]; auto.
  - destruct (Hdel w) as [H1 | H2]; auto.
Qed.

Lemma run_reflects op s :
  (((op (Server.watcher s)).2 = []
    ∧ Watcher.lastConfig (op (Server.watcher s)).1 = Watcher.lastConfig (Server.watcher s))
   ∨ (∃ msg, (op (Server.watcher s)).2 = [Watcher.Error msg]
             ∧ Watcher.lastConfig (op (Server.watcher s)).1
               = Watcher.lastConfig (Server.watcher s))
   ∨ (∃ c, (op (Server.watcher s)).2 = [Watcher.Change c]
           ∧ Watcher.lastConfig (op (Server.watcher s)).1 = Some c)
   ∨ ((op (Server.watcher s)).2 = [Watcher.Delete]
      ∧ Watcher.lastConfig (op (Server.watcher s)).1 = None)) →
  reflects_last_config s → reflects_last_config (Server.run op s).1.
Proof.
  unfold reflects_last_config, Watcher.getLastConfig. rewrite run_unfold.
  cbn [fst Server.watcher Server.registry].
  intros [[-> ->] | [(msg & -> & ->) | [(c & -> & ->) | [-> ->]]]] Hs.
  - done.
  - by rewrite deliver_one.
  - by rewrite deliver_one, handle_Change.
  - by rewrite deliver_one, handle_Delete.
Qed.

Lemma step_reflects path i s :
  reflects_last_config s → reflects_last_config (Server.step path i s).1.
Proof.
  destruct i as [fs| |fs fs']; unfold Server.step; apply run_reflects.
  - destruct (loadAndEmit_cases path fs (Server.watcher s)) as [H1 | [H2 | H3]]; auto.
  - right. right. right. done.
  - apply poll_cases.
Qed.

(** X4. With one watcher, from the start of the server (nothing loaded,
    the registry empty) and from every state in which the registry holds
    the tools of the configuration the watcher accepted last, whatever
    reloads, unlink events and poll ticks follow, the registry holds
    exactly the tools of the configuration the watcher accepted last,
    and is empty when there is none. *)
Theorem registry_reflects_last_config (path : string) (inputs : list Server.Input) :
  reflects_last_config
    (Server.steps path inputs
       {| Server.watcher := Watcher.initial; Server.registry := Registry.empty |}).1
  ∧ ∀ s, reflects_last_config s →
         reflects_last_config (Server.steps path inputs s).1.
Proof.
  assert (∀ s, reflects_last_config s →
               reflects_last_config (Server.steps path inputs s).1) as Hkept.
  { induction inputs as [|i inputs IH]; intros s Hs; simpl; [done|].
    destruct (Server.step path i s) as [s1 o1] eqn:Hstep.
    specialize (IH s1). destruct (Server.steps path inputs s1) as [s2 o2].
    simpl in *. apply IH.
    replace s1 with (Server.step path i s).1 by (by rewrite Hstep).
    by apply step_reflects. }
  split; [|exact Hkept]. apply Hkept. reflexivity.
Qed.

Lemma registry_reflects_last_config_witness :
  reflects_last_config
    (Server.steps Sample.tools_json
       [Server.Reload Sample.recreated; Server.Poll Sample.broken Sample.broken;
        Server.Unlink; Server.Poll Sample.recreated Sample.recreated]
       Sample.loaded).1.
Proof.
  apply (registry_reflects_last_config Sample.tools_json).
  reflexivity.
Defined.

(** X5. A reload that finds the file emits exactly one event: ['change']
    with the configuration when the file is valid, which becomes
    [lastConfig], and ['error'] otherwise, with [lastConfig] kept; the
    modification time that [stat] returned is recorded either way. *)
Theorem reload_emits_one_event (path : string) (fs : Watcher.FsView) (w : Watcher.State) :
  Watcher.exists_ fs = true →
  let mtime := default (Watcher.lastMtime w) (Watcher.mtimeMs fs) in
  match Watcher.content fs with
  | Parser.Accepted c =>
      Watcher.loadAndEmit path fs w
      = ({| Watcher.lastMtime := mtime; Watcher.lastConfig := Some c |},
         [Watcher.Change c])
  | _ =>
      ∃ msg, Watcher.loadAndEmit path fs w
             = ({| Watcher.lastMtime := mtime;
                   Watcher.lastConfig := Watcher.lastConfig w |},
                [Watcher.Error msg])
  end.
Proof.
  intros Hex mtime. subst mtime. unfold Watcher.loadAndEmit. rewrite Hex. simpl.
  destruct w as [lm lc].
  destruct (Watcher.content fs), (Watcher.mtimeMs fs); simpl; eauto.
Qed.

Lemma reload_emits_one_event_witness :
  ∃ msg, Watcher.loadAndEmit Sample.tools_json Sample.broken
           (Server.watcher Sample.loaded)
         = ({| Watcher.lastMtime := 1700000005000;
               Watcher.lastConfig := Some {| tools := [Sample.tool_a; Sample.tool_b] |} |},
            [Watcher.Error msg]).
Proof.
  exact (reload_emits_one_event Sample.tools_json Sample.broken
           (Server.watcher Sample.loaded) eq_refl).
Defined.

Lemma loadAndEmit_lastMtime path fs w m :
  Watcher.mtimeMs fs = Some m → Watcher.lastMtime w = m →
  Watcher.lastMtime (Watcher.loadAndEmit path fs w).1 = m.
Proof.
  intros Hm Hw. unfold Watcher.loadAndEmit. rewrite Hm.
  destruct (Watcher.exists_ fs); simpl; [|done].
  by destruct (Watcher.content fs).
Qed.

(** X6. A poll tick records the modification time it acted on, whether
    the load succeeded or failed: while the file keeps that modification
    time, the next poll tick emits nothing and changes nothing, so a
    broken file is not parsed again on every tick. *)
Theorem poll_does_not_retry
  (path : string) (fs fs_load : Watcher.FsView) (m : Z) (s : Server.State) :
  Watcher.exists_ fs = true →
  Watcher.mtimeMs fs = Some m →
  Watcher.mtimeMs fs_load = Some m →
  let s1 := (Server.step path (Server.Poll fs fs_load) s).1 in
  Server.step path (Server.Poll fs fs_load) s1 = (s1, []).
Proof.
  intros Hex Hm Hm' s1.
  assert (Watcher.lastMtime (Server.watcher s1) = m) as Hlast.
  { subst s1. unfold Server.step. rewrite run_unfold. cbn [fst Server.watcher].
    unfold Watcher.poll. rewrite Hex, Hm. simpl.
    case_decide as Hne; [by apply loadAndEmit_lastMtime|].
    simpl. destruct (decide (m = Watcher.lastMtime (Server.watcher s))); [done|].
    by destruct Hne. }
  unfold Server.step. rewrite run_unfold. unfold Watcher.poll.
  rewrite Hex, Hm. simpl. rewrite decide_False by (intros H; by apply H).
  simpl. by destruct s1.
Qed.

Lemma poll_does_not_retry_witness :
  let s1 := (Server.step Sample.tools_json
               (Server.Poll Sample.broken Sample.broken) Sample.loaded).1 in
  Server.step Sample.tools_json (Server.Poll Sample.broken Sample.broken) s1
  = (s1, []).
Proof.
  exact (poll_does_not_retry Sample.tools_json Sample.broken Sample.broken
           1700000005000 Sample.loaded eq_refl eq_refl eq_refl).
Defined.

(** X7. [startWatcher] for a new root starts a fresh watcher on the
    registry already there.  When the new root has no configuration
    file, or one that fails to load, the registry keeps the tools of the
    old root while the new watcher has no configuration; when the file
    is valid, the registry holds its tools. *)
Theorem startWatcher_registry
  (path : string) (fs : Watcher.FsView) (s : Server.State) :
  (Watcher.exists_ fs = false
   ∨ Parser.success (Parser.parseToolsJson path (Watcher.content fs)) = false →
   Server.registry (Facade.startWatcher path fs s).1 = Server.registry s
   ∧ Watcher.getLastConfig (Server.watcher (Facade.startWatcher path fs s).1) = None)
  ∧ (∀ c, Watcher.exists_ fs = true → Watcher.content fs = Parser.Accepted c →
          Server.registry (Facade.startWatcher path fs s).1
          = Registry.repopulate (tools c)
          ∧ Watcher.getLastConfig (Server.watcher (Facade.startWatcher path fs s).1)
            = Some c).
Proof.
  unfold Facade.startWatcher, Watcher.getLastConfig. rewrite run_unfold.
  cbn [fst Server.watcher Server.registry]. split.
  - intros Hbad. destruct (Watcher.exists_ fs) eqn:Hex.
    + destruct Hbad as [|Hfail]; [done|].
      destruct (loadAndEmit_failure path fs Watcher.initial Hex Hfail)
        as (errs & _ & -> & ->). by rewrite deliver_one.
    + unfold Watcher.loadAndEmit. by rewrite Hex.
  - intros c Hex Hc.
    destruct (loadAndEmit_accepted path fs Watcher.initial c Hex Hc) as [-> ->].
    by rewrite deliver_one, handle_Change.
Qed.

Lemma startWatcher_registry_witness :
  Registry.getTools
    (Server.registry (Facade.startWatcher "/other/.mcp/tools.json" Sample.gone
                        Sample.loaded).1)
  = [Sample.tool_a; Sample.tool_b]
  ∧ Registry.getTools
      (Server.registry (Facade.startWatcher "/other/.mcp/tools.json" Sample.recreated
                          Sample.loaded).1)
    = [Sample.tool_b].
Proof.
  destruct (startWatcher_registry "/other/.mcp/tools.json" Sample.gone Sample.loaded)
    as [Hkeep _].
  destruct (startWatcher_registry "/other/.mcp/tools.json" Sample.recreated Sample.loaded)
    as [_ Hnew].
  destruct (Hkeep (or_introl eq_refl)) as [-> _].
  destruct (Hnew {| tools := [Sample.tool_b] |} eq_refl eq_refl) as [-> _].
  split; reflexivity.
Defined.

(** ** Change Watcher: the debounced reload *)

Lemma last_cons {A} (a d : A) (l : list A) : List.last (a :: l) d = List.last l a.
Proof.
  revert a d. induction l as [|b l IH]; intros a d; [done|].
  change (List.last (a :: b :: l) d) with (List.last (b :: l) d).
  by rewrite (IH b d), (IH b a).
Qed.

Lemma loads_burst t changes :
  burst t changes →
  Debounce.loads (Some (t + Debounce.DEBOUNCE_DELAY)) changes
  = [List.last changes t + Debounce.DEBOUNCE_DELAY].
Proof.
  revert t. induction changes as [|t' changes IH]; intros t Hb; [done|].
  cbn [burst] in Hb. destruct Hb as [[Hle Hlt] Hb]. cbn [Debounce.loads].
  destruct (t + Debounce.DEBOUNCE_DELAY <=? t') eqn:Hdue.
  - apply Z.leb_le in Hdue. lia.
  - unfold Debounce.handleChange, Debounce.debouncedLoad.
    rewrite (IH t' Hb). by rewrite last_cons.
Qed.

(** X8. Change events that each come less than 300 ms after the one
    before lead to a single reload, 300 ms after the last of them. *)
Theorem burst_reloads_once (t : Z) (changes : list Z) :
  burst t changes →
  Debounce.loads None (t :: changes) = [List.last changes t + 300].
Proof. intros Hb. cbn [Debounce.loads]. by apply loads_burst. Qed.

Lemma burst_reloads_once_witness :
  Debounce.loads None [1000; 1100; 1350; 1649] = [1949].
Proof.
  apply (burst_reloads_once 1000 [1100; 1350; 1649]).
  unfold burst, Debounce.DEBOUNCE_DELAY. lia.
Defined.

Lemma ascending_le q changes c : ascending q changes → c ∈ changes → q <= c.
Proof.
  revert q. induction changes as [|t changes IH]; intros q Ha Hc.
  - by apply elem_of_nil in Hc.
  - cbn [ascending] in Ha. destruct Ha as [Hqt Ha].
    apply elem_of_cons in Hc as [->|Hc]; [done|].
    specialize (IH t Ha Hc). lia.
Qed.

Lemma loads_pending q changes :
  ascending q changes →
  let ds := Debounce.loads (Some (q + Debounce.DEBOUNCE_DELAY)) changes in
  (∀ d, d ∈ ds →
        (d - Debounce.DEBOUNCE_DELAY = q ∨ d - Debounce.DEBOUNCE_DELAY ∈ changes)
        ∧ ∀ c, c ∈ changes → ¬ (d - Debounce.DEBOUNCE_DELAY < c < d))
  ∧ List.last changes q + Debounce.DEBOUNCE_DELAY ∈ ds
  ∧ (length ds <= S (length changes))%nat.
Proof.
  revert q. induction changes as [|t changes IH]; intros q Ha ds; subst ds.
  - cbn [Debounce.loads]. split_and!; [|left|done].
    intros d Hd. apply list_elem_of_singleton in Hd as ->. split; [left; lia|].
    intros c Hc. by apply elem_of_nil in Hc.
  - cbn [ascending] in Ha. destruct Ha as [Hqt Ha].
    destruct (IH t Ha) as (Hquiet & Hlast & Hlen).
    cbn [Debounce.loads]. unfold Debounce.handleChange, Debounce.debouncedLoad.
    assert (∀ d, d ∈ Debounce.loads (Some (t + Debounce.DEBOUNCE_DELAY)) changes →
              (d - Debounce.DEBOUNCE_DELAY = q ∨ d - Debounce.DEBOUNCE_DELAY ∈ t :: changes)
              ∧ ∀ c, c ∈ t :: changes → ¬ (d - Debounce.DEBOUNCE_DELAY < c < d)) as Hrest.
    { intros d Hd. destruct (Hquiet d Hd) as [Hfrom Hq]. split.
      - right. destruct Hfrom as [->|Hin]; [left | by right].
      - intros c Hc. apply elem_of_cons in Hc as [->|Hc]; [|by apply Hq].
        destruct Hfrom as [Heq|Hin]; [lia|].
        pose proof (ascending_le t changes _ Ha Hin). lia. }
    rewrite last_cons.
    destruct (q + Debounce.DEBOUNCE_DELAY <=? t) eqn:Hdue.
    + apply Z.leb_le in Hdue. split_and!.
      * intros d Hd. apply elem_of_cons in Hd as [->|Hd]; [|by apply Hrest].
        split; [left; lia|]. intros c Hc.
        assert (t <= c).
        { apply elem_of_cons in Hc as [->|Hc]; [lia|].
          by apply (ascending_le t changes). }
        lia.
      * by right.
      * simpl. lia.
    + split_and!; [exact Hrest | done | simpl; lia].
Qed.

(** X9. For change events in the order of their times: every reload
    starts exactly 300 ms after one of the events, and no event falls
    within those 300 ms; the last event is always followed by a reload;
    and there are never more reloads than events. *)
Theorem reloads_follow_quiet_windows (t : Z) (changes : list Z) :
  ascending t changes →
  let ds := Debounce.loads None (t :: changes) in
  (∀ d, d ∈ ds →
        d - 300 ∈ t :: changes
        ∧ ∀ c, c ∈ t :: changes → ¬ (d - 300 < c < d))
  ∧ List.last changes t + 300 ∈ ds
  ∧ (length ds <= length (t :: changes))%nat.
Proof.
  intros Ha ds. subst ds. cbn [Debounce.loads].
  unfold Debounce.handleChange, Debounce.debouncedLoad.
  destruct (loads_pending t changes Ha) as (Hquiet & Hlast & Hlen).
  split_and!; [|exact Hlast|exact Hlen].
  intros d Hd. destruct (Hquiet d Hd) as [Hfrom Hq].
  unfold Debounce.DEBOUNCE_DELAY in *. split.
  - destruct Hfrom as [->|Hin]; [left | by right].
  - intros c Hc. apply elem_of_cons in Hc as [->|Hc]; [|by apply Hq].
    destruct Hfrom as [Heq|Hin]; [lia|].
    pose proof (ascending_le t changes _ Ha Hin). lia.
Qed.

Lemma reloads_follow_quiet_windows_witness :
  let ds := Debounce.loads None [1000; 1100; 2000] in
  ds = [1400; 2300] ∧ 2300 ∈ ds ∧ (length ds <= 3)%nat.
Proof.
  intros ds.
  destruct (reloads_follow_quiet_windows 1000 [1100; 2000]) as (_ & Hlast & Hlen).
  { unfold ascending. lia. }
  split_and!; [reflexivity | exact Hlast | exact Hlen].
Defined.

(** ** Server Facade: the answers to tools/list and tools/call *)

Lemma truthy_nonempty (v : string) : v ≠ EmptyString → Js.truthy (Some v) = true.
Proof. by destruct v. Qed.

(** X10. A tool whose child closes before the timer comes due: with
    exit code 0 the answer is its standard output, or its standard error
    when that is empty, or [(no output)] when both are; with any other
    exit code, and with none (the child was ended by a signal, which is
    reported as exit code 0), the answer is an error that states the
    exit code and carries the standard error. *)
Theorem callTool_reports_exit
  (w : Executor.World) (root dir : string) (r : Registry.ToolRegistry)
  (n : string) (arguments : option (list (string * Js.Value)))
  (tool : ToolDefinition) (src interpreter : string) (c : option Z)
  (env : gmap string string) :
  let tm := default Executor.DEFAULT_TIMEOUT (timeout (executor tool)) in
  let child := Executor.spawn w
                 {| Executor.command := interpreter; Executor.args := ["-c"; src];
                    Executor.env := env; Executor.cwd := root |} in
  let early := before (Executor.timer_delay tm) (Executor.undisturbed child) in
  root ≠ EmptyString → dir ≠ EmptyString →
  Registry.getTool n r = Some tool →
  Executor.build_env w (default [] arguments) root dir n = Some env →
  resolves_to w (executor tool) dir src →
  (type (executor tool) = "bash" ∧ interpreter = "bash")
  ∨ (type (executor tool) = "python" ∧ interpreter = "python3") →
  Executor.spawn_throws child = None →
  ending early = Some (Executor.CloseEvent c) →
  Facade.callTool w (Some root) (Some dir) r n arguments
  = Executor.Resolved
      (if bool_decide (c = Some 0) then
         {| Facade.text :=
              JsString.or_else (captured early).1
                (JsString.or_else (captured early).2 "(no output)");
            Facade.isError := false |}
       else
         {| Facade.text :=
              "Command failed with exit code " +:+ pretty (default 0 c)
                +:+ JsString.nl +:+ JsString.nl +:+ "Stderr:" +:+ JsString.nl
                +:+ (captured early).2;
            Facade.isError := true |}).
Proof.
  intros tm child early Hroot Hdir Hget Henv Hsrc Hty Hspawn Hend.
  unfold Facade.callTool.
  rewrite (truthy_nonempty root Hroot), (truthy_nonempty dir Hdir), Hget. simpl.
  rewrite (executeCommand_resolved w (executor tool) (default [] arguments)
             root dir n src env Henv Hsrc).
  fold tm. rewrite (dispatch_interpreter _ _ _ _ _ _ interpreter Hty).
  rewrite (execute_closed interpreter w src env tm root Hspawn c Hend).
  unfold Facade.respond. simpl. by destruct (bool_decide (c = Some 0)).
Qed.

Lemma callTool_reports_exit_witness :
  Facade.callTool (Sample.world Scenario.failing) (Some "/work") (Some "/work/.mcp")
    (Registry.repopulate [Sample.tool_a]) "a" None
  = Executor.Resolved
      {| Facade.text :=
           "Command failed with exit code 3" +:+ JsString.nl +:+ JsString.nl
             +:+ "Stderr:" +:+ JsString.nl +:+ "boom";
         Facade.isError := true |}.
Proof.
  eapply (callTool_reports_exit (Sample.world Scenario.failing) "/work" "/work/.mcp"
            (Registry.repopulate [Sample.tool_a]) "a" None Sample.tool_a
            "echo one" "bash" (Some 3)).
  - discriminate.
  - discriminate.
  - reflexivity.
  - reflexivity.
  - left. split; reflexivity.
  - left. split; reflexivity.
  - reflexivity.
  - reflexivity.
Defined.

(** X11. The handler of tools/call never rejects.  While the project
    root is not set it answers the [not initialized] error, whatever the
    name; and when the script file of the tool exists but cannot be
    read, or a parameter value cannot be turned into a string, so that
    [executeCommand] rejects, it answers an [Execution error] that
    carries the reason. *)
Theorem callTool_always_answers
  (w : Executor.World) (root dir : option string) (r : Registry.ToolRegistry)
  (n : string) (arguments : option (list (string * Js.Value))) :
  (∀ reason, Facade.callTool w root dir r n arguments ≠ Executor.Thrown reason)
  ∧ (Js.truthy root = false ∨ Js.truthy dir = false →
     Facade.callTool w root dir r n arguments
     = Executor.Resolved
         {| Facade.text :=
              "Error: Project root not initialized. The MCP client must provide roots.";
            Facade.isError := true |})
  ∧ (∀ tool f reason,
       Js.truthy root = true → Js.truthy dir = true →
       Registry.getTool n r = Some tool →
       is_Some (Executor.build_env w (default [] arguments)
                  (default EmptyString root) (default EmptyString dir) n) →
       Js.truthy (code (executor tool)) = false →
       file (executor tool) = Some f → f ≠ EmptyString →
       let scriptPath := Executor.path_join w (default EmptyString dir) f in
       Executor.existsSync w scriptPath = true →
       Executor.readFile w scriptPath = inr reason →
       Facade.callTool w root dir r n arguments
       = Executor.Resolved
           {| Facade.text := "Execution error: " +:+ reason;
              Facade.isError := true |})
  ∧ (∀ tool,
       Js.truthy root = true → Js.truthy dir = true →
       Registry.getTool n r = Some tool →
       Executor.build_env w (default [] arguments)
         (default EmptyString root) (default EmptyString dir) n = None →
       Facade.callTool w root dir r n arguments
       = Executor.Resolved
           {| Facade.text := "Execution error: Cannot convert object to primitive value";
              Facade.isError := true |}).
Proof.
  split_and!.
  - intros reason. unfold Facade.callTool.
    destruct (negb (Js.truthy root) || negb (Js.truthy dir))%bool; [done|].
    destruct (Registry.getTool n r); [|done].
    by destruct (Executor.executeCommand _ _ _ _ _ _).
  - intros Hnot. unfold Facade.callTool.
    destruct Hnot as [-> | ->]; simpl; [done|]. by rewrite orb_true_r.
  - intros tool f reason Hroot Hdir Hget [env Henv] Hcode Hfile Hf scriptPath Hex Hread.
    unfold Facade.callTool. rewrite Hroot, Hdir, Hget. simpl.
    rewrite (executeCommand_file w (executor tool) _ _ _ _ f env Henv Hcode Hfile Hf).
    fold scriptPath. by rewrite Hex, Hread.
  - intros tool Hroot Hdir Hget Henv.
    unfold Facade.callTool. rewrite Hroot, Hdir, Hget. simpl.
    by rewrite (executeCommand_uncoercible _ _ _ _ _ _ Henv).
Qed.

Lemma callTool_always_answers_witness :
  Facade.callTool (Sample.world_of_directories Sample.hello)
    (Some "/work") (Some "/work/.mcp")
    [("run", {| name := "run"; description := "sample"; parameters := None;
                executor := {| type := "bash"; code := None;
                               file := Some "scripts"; timeout := None |} |})]
    "run" None
  = Executor.Resolved
      {| Facade.text := "Execution error: EISDIR: illegal operation on a directory, read";
         Facade.isError := true |}.
Proof.
  destruct (callTool_always_answers (Sample.world_of_directories Sample.hello)
              (Some "/work") (Some "/work/.mcp")
              [("run", {| name := "run"; description := "sample"; parameters := None;
                          executor := {| type := "bash"; code := None;
                                         file := Some "scripts"; timeout := None |} |})]
              "run" None) as (_ & _ & Hthrown & _).
  eapply (Hthrown _ "scripts"); try reflexivity; [by eexists | discriminate].
Defined.

(** X12. After a configuration is loaded, the names the list request
    shows are the names the configuration declares, and they are the
    names the call request accepts: a call by a listed name runs the
    executor of a definition of that name, a call by any other name is
    answered with [Unknown tool]. *)
Theorem listed_tools_are_the_callable_ones
  (config : ToolsConfig) (r0 : Registry.ToolRegistry)
  (w : Executor.World) (root dir n : string)
  (arguments : option (list (string * Js.Value))) :
  let r := (Registry.updateFromConfig config r0).1 in
  let listed := List.map Facade.l_name (Facade.listTools r) in
  root ≠ EmptyString → dir ≠ EmptyString →
  (n ∈ listed ↔ n ∈ List.map name (tools config))
  ∧ NoDup listed
  ∧ (n ∈ listed →
     ∃ tool, tool ∈ tools config ∧ name tool = n
             ∧ Facade.callTool w (Some root) (Some dir) r n arguments
               = match Executor.executeCommand w (executor tool)
                         (default [] arguments) root dir n with
                 | Executor.Resolved result => Executor.Resolved (Facade.respond result)
                 | Executor.Thrown reason =>
                     Executor.Resolved
                       (Facade.error_response ("Execution error: " +:+ reason))
                 | Executor.Pending => Executor.Pending
                 end)
  ∧ (n ∉ listed →
     Facade.callTool w (Some root) (Some dir) r n arguments
     = Executor.Resolved
         {| Facade.text := "Error: Unknown tool " +:+ Executor.dquote +:+ n
                             +:+ Executor.dquote;
            Facade.isError := true |}).
Proof.
  intros r listed Hroot Hdir.
  assert (listed = Js.Set_of (List.map name (tools config))) as Hlisted.
  { subst listed r. unfold Facade.listTools. rewrite map_map. simpl.
    unfold Registry.updateFromConfig. simpl. apply names_repopulate. }
  destruct (getTool_after_update_aux config r0 n) as (Hnone & Hsome).
  fold r in Hnone, Hsome.
  split_and!.
  - by rewrite Hlisted, Set_of_elem.
  - rewrite Hlisted. apply Set_of_NoDup.
  - rewrite Hlisted, Set_of_elem. intros Hin.
    destruct (Registry.getTool n r) as [tool|] eqn:Hget.
    + destruct (Hsome tool eq_refl) as [Hn Ht]. exists tool.
      split_and!; [done | done |].
      unfold Facade.callTool.
      by rewrite (truthy_nonempty root Hroot), (truthy_nonempty dir Hdir), Hget.
    + by apply Hnone in Hin.
  - rewrite Hlisted, Set_of_elem. intros Hnin. apply Hnone in Hnin.
    unfold Facade.callTool.
    by rewrite (truthy_nonempty root Hroot), (truthy_nonempty dir Hdir), Hnin.
Qed.

Lemma listed_tools_are_the_callable_ones_witness :
  Facade.callTool (Sample.world Sample.hello) (Some "/work") (Some "/work/.mcp")
    (Registry.updateFromConfig {| tools := [Sample.tool_a; Sample.tool_b] |}
       Registry.empty).1
    "c" None
  = Executor.Resolved
      {| Facade.text := "Error: Unknown tool " +:+ Executor.dquote +:+ "c"
                          +:+ Executor.dquote;
         Facade.isError := true |}.
Proof.
  destruct (listed_tools_are_the_callable_ones
              {| tools := [Sample.tool_a; Sample.tool_b] |} Registry.empty
              (Sample.world Sample.hello) "/work" "/work/.mcp" "c" None)
    as (_ & _ & _ & Hunknown); [discriminate | discriminate |].
  apply Hunknown. apply (bool_decide_unpack _). vm_compute. exact I.
Defined.

(** ** Command line: parseArgs *)

Lemma split_nonempty sep s : JsString.split sep s ≠ [].
Proof.
  induction s as [|c s IH]; simpl; [done|].
  case_decide; [done|]. by destruct (JsString.split sep s).
Qed.

Lemma split_without sep u : occurs sep u = false → JsString.split sep u = [u].
Proof.
  induction u as [|c u IH]; simpl; [done|].
  intros H. apply orb_false_iff in H as [Hc Hu].
  apply bool_decide_eq_false in Hc. rewrite decide_False by done.
  by rewrite IH.
Qed.

Lemma split_at_first sep u t :
  occurs sep u = false →
  JsString.split sep (u +:+ String sep t) = u :: JsString.split sep t.
Proof.
  induction u as [|c u IH]; intros H.
  - simpl. by rewrite decide_True.
  - simpl in H. apply orb_false_iff in H as [Hc Hu].
    apply bool_decide_eq_false in Hc. rewrite append_cons. simpl.
    rewrite decide_False by done. by rewrite IH.
Qed.

Lemma startsWith_append p s : JsString.startsWith p (p +:+ s) = true.
Proof.
  induction p as [|a p IH]; [done|]. rewrite append_cons. simpl.
  by rewrite bool_decide_true, IH.
Qed.

Lemma second_piece u v tail :
  occurs "=" u = false → occurs "=" v = false →
  nth 1 (JsString.split "=" (u +:+ String "=" v)) EmptyString = v
  ∧ nth 1 (JsString.split "=" (u +:+ String "=" (v +:+ String "=" tail))) EmptyString = v.
Proof.
  intros Hu Hv. rewrite !split_at_first by done.
  rewrite split_without by done. done.
Qed.

(** X13. The project root [parseArgs] returns, when it returns one that
    is not empty, is a resolved path that exists. *)
Theorem parseArgs_root_exists (h : Cli.Host) (args : list string) :
  Js.truthy (Cli.projectRoot (Cli.parseArgs h args)) = true →
  ∃ raw, Cli.projectRoot (Cli.parseArgs h args) = Some (Cli.resolve h raw)
         ∧ Cli.existsSync h (Cli.resolve h raw) = true.
Proof.
  unfold Cli.parseArgs. destruct (Cli.scan args None ".mcp") as [root dir].
  set (root' := if negb (Js.truthy root)
                then Cli.environment h !! "PROJECT_ROOT" else root).
  simpl. destruct (Js.truthy root') eqn:Ht; [|by rewrite Ht].
  destruct (Cli.existsSync h (Cli.resolve h (default EmptyString root'))) eqn:Hex;
    simpl; [|done].
  intros _. eauto.
Qed.

Lemma parseArgs_root_exists_witness :
  Cli.projectRoot (Cli.parseArgs Scenario.host ["--project-root"; "/work"])
  = Some "/work".
Proof.
  destruct (parseArgs_root_exists Scenario.host ["--project-root"; "/work"] eq_refl)
    as (raw & Hraw & _).
  rewrite Hraw. vm_compute in Hraw. by injection Hraw as <-.
Defined.

(** X14. A [MCP_DIR_NAME] that is set and not empty decides the
    directory name, whatever [--mcp-dir] the command line gives. *)
Theorem parseArgs_environment_names_directory
  (h : Cli.Host) (args : list string) (d : string) :
  Cli.environment h !! "MCP_DIR_NAME" = Some d → d ≠ EmptyString →
  Cli.mcpDirName (Cli.parseArgs h args) = d.
Proof.
  intros Henv Hd. unfold Cli.parseArgs.
  destruct (Cli.scan args None ".mcp") as [root dir]. simpl.
  by rewrite Henv, (truthy_nonempty d Hd).
Qed.

Lemma parseArgs_environment_names_directory_witness :
  Cli.mcpDirName (Cli.parseArgs Scenario.host ["--mcp-dir"; "custom"]) = "tools".
Proof.
  apply (parseArgs_environment_names_directory Scenario.host
           ["--mcp-dir"; "custom"] "tools"); [reflexivity | discriminate].
Defined.

(** X15. Without [MCP_DIR_NAME], [--mcp-dir=<v>] and [--mcp-dir <v>]
    give the same directory name [v] when [v] has no [=] in it and is
    not empty; of a value with an [=] in it, the one-word form keeps
    only what comes before that [=]. *)
Theorem parseArgs_mcp_dir_forms (h : Cli.Host) (v tail : string) :
  Cli.environment h !! "MCP_DIR_NAME" = None →
  occurs "=" v = false →
  Cli.mcpDirName (Cli.parseArgs h ["--mcp-dir=" +:+ v]) = v
  ∧ Cli.mcpDirName (Cli.parseArgs h ["--mcp-dir=" +:+ v +:+ "=" +:+ tail]) = v
  ∧ (v ≠ EmptyString → Cli.mcpDirName (Cli.parseArgs h ["--mcp-dir"; v]) = v)
  ∧ (v ≠ EmptyString →
     Cli.mcpDirName (Cli.parseArgs h ["--mcp-dir"; v +:+ "=" +:+ tail])
     = v +:+ "=" +:+ tail).
Proof.
  intros Henv Hv.
  destruct (second_piece "--mcp-dir" v tail eq_refl Hv) as [H1 H2].
  assert (∀ s, Cli.mcpDirName (Cli.parseArgs h ["--mcp-dir=" +:+ s])
               = nth 1 (JsString.split "=" ("--mcp-dir" +:+ String "=" s)) EmptyString)
    as Hone.
  { intros s0. unfold Cli.parseArgs.
    change (Cli.scan ["--mcp-dir=" +:+ s0] None ".mcp")
      with (None : option string,
            nth 1 (JsString.split "=" ("--mcp-dir" +:+ String "=" s0)) EmptyString).
    simpl. by rewrite Henv. }
  assert (∀ s, s ≠ EmptyString →
               Cli.mcpDirName (Cli.parseArgs h ["--mcp-dir"; s]) = s) as Htwo.
  { intros s0 Hs. unfold Cli.parseArgs.
    replace (Cli.scan ["--mcp-dir"; s0] None ".mcp") with (None : option string, s0).
    - simpl. by rewrite Henv.
    - cbn [Cli.scan]. rewrite (truthy_nonempty s0 Hs). reflexivity. }
  split_and!.
  - by rewrite Hone.
  - rewrite Hone. exact H2.
  - apply Htwo.
  - intros Hne. apply Htwo. destruct v; [done|]. done.
Qed.

Lemma parseArgs_mcp_dir_forms_witness :
  Cli.mcpDirName (Cli.parseArgs Scenario.bare_host ["--mcp-dir=conf=2"]) = "conf"
  ∧ Cli.mcpDirName (Cli.parseArgs Scenario.bare_host ["--mcp-dir"; "conf=2"]) = "conf=2".
Proof.
  destruct (parseArgs_mcp_dir_forms Scenario.bare_host "conf" "2" eq_refl eq_refl)
    as (_ & Hcut & _ & Hkeep).
  split; [exact Hcut | apply Hkeep; discriminate].
Defined.

(** X16. The project root the scan of the arguments ends with, when it
    is not empty, is the one that is used, whatever [PROJECT_ROOT] holds:
    it is resolved, and when the resolved path does not exist no project
    root is returned.  When the scan ends with none or with the empty
    string, as it does after [--project-root=], also when an argument
    before gave a root, [PROJECT_ROOT] is used in its place. *)
Theorem parseArgs_missing_root_is_dropped (h : Cli.Host) (args : list string) :
  let given := (Cli.scan args None ".mcp").1 in
  let checked (p : string) :=
    if Cli.existsSync h (Cli.resolve h p) then Some (Cli.resolve h p) else None in
  (∀ v, given = Some v → v ≠ EmptyString →
        Cli.projectRoot (Cli.parseArgs h args) = checked v)
  ∧ (Js.truthy given = false →
     Cli.projectRoot (Cli.parseArgs h args)
     = match Cli.environment h !! "PROJECT_ROOT" with
       | Some e => if bool_decide (e = EmptyString) then Some EmptyString else checked e
       | None => None
       end)
  ∧ (∀ v, v ≠ EmptyString →
        Cli.projectRoot (Cli.parseArgs h ["--project-root"; v]) = checked v)
  ∧ (Cli.scan ["--project-root="] None ".mcp").1 = Some EmptyString
  ∧ (∀ v, v ≠ EmptyString →
        (Cli.scan ["--project-root"; v; "--project-root="] None ".mcp").1
        = Some EmptyString).
Proof.
  intros given checked.
  assert (∀ l v, (Cli.scan l None ".mcp").1 = Some v → v ≠ EmptyString →
                 Cli.projectRoot (Cli.parseArgs h l) = checked v) as Hgiven.
  { intros l v Hl Hv. unfold Cli.parseArgs.
    destruct (Cli.scan l None ".mcp") as [root dir]. simpl in Hl. subst root.
    destruct v as [|a v]; [done|]. simpl. unfold checked.
    by destruct (Cli.existsSync h (Cli.resolve h (String a v))). }
  split_and!.
  - intros v. apply Hgiven.
  - subst given. unfold Cli.parseArgs.
    destruct (Cli.scan args None ".mcp") as [root dir]. simpl. intros ->. simpl.
    destruct (Cli.environment h !! "PROJECT_ROOT") as [[|a e]|]; simpl; [done | | done].
    unfold checked. by destruct (Cli.existsSync h (Cli.resolve h (String a e))).
  - intros v Hv. apply Hgiven; [|done]. destruct v; done.
  - reflexivity.
  - intros v Hv. destruct v; done.
Qed.

Lemma parseArgs_missing_root_is_dropped_witness :
  Cli.projectRoot
    (Cli.parseArgs {| Cli.environment := {[ "PROJECT_ROOT" := "/work" ]};
                      Cli.resolve := fun p => p;
                      Cli.existsSync := fun p => bool_decide (p = "/work") |}
       ["--project-root"; "/gone"])
  = None
  ∧ Cli.projectRoot
      (Cli.parseArgs {| Cli.environment := {[ "PROJECT_ROOT" := "/work" ]};
                        Cli.resolve := fun p => p;
                        Cli.existsSync := fun p => bool_decide (p = "/work") |}
         ["--project-root"; "/gone"; "--project-root="])
    = Some "/work".
Proof.
  split.
  - destruct (parseArgs_missing_root_is_dropped
                {| Cli.environment := {[ "PROJECT_ROOT" := "/work" ]};
                   Cli.resolve := fun p => p;
                   Cli.existsSync := fun p => bool_decide (p = "/work") |}
                ["--project-root"; "/gone"]) as (Hgiven & _).
    rewrite (Hgiven "/gone"); [reflexivity | reflexivity | discriminate].
  - destruct (parseArgs_missing_root_is_dropped
                {| Cli.environment := {[ "PROJECT_ROOT" := "/work" ]};
                   Cli.resolve := fun p => p;
                   Cli.existsSync := fun p => bool_decide (p = "/work") |}
                ["--project-root"; "/gone"; "--project-root="]) as (_ & Henv & _).
    rewrite Henv; reflexivity.
Defined.

(** ** Execution Engine: failures before any process *)

(** X17. When the executor has neither code nor file, when its script
    file is missing, and when its type is neither [bash] nor [python],
    [executeCommand] ends without spawning anything: its outcome is the
    same whatever [spawn] would do. *)
Theorem early_failures_spawn_nothing
  (w : Executor.World) (ex : ToolExecutor) (params : list (string * Js.Value))
  (root dir tool : string) (sp : Executor.SpawnRequest → Executor.Child) :
  let w' := {| Executor.process_env := Executor.process_env w;
               Executor.toUpperCase := Executor.toUpperCase w;
               Executor.existsSync := Executor.existsSync w;
               Executor.readFile := Executor.readFile w;
               Executor.path_join := Executor.path_join w;
               Executor.spawn := sp |} in
  (Js.truthy (code ex) = false
   ∧ (Js.truthy (file ex) = false
      ∨ Executor.existsSync w
          (Executor.path_join w dir (default EmptyString (file ex))) = false))
  ∨ (type ex ≠ "bash" ∧ type ex ≠ "python") →
  Executor.executeCommand w' ex params root dir tool
  = Executor.executeCommand w ex params root dir tool.
Proof.
  intros w' Hearly. subst w'. unfold Executor.executeCommand, Executor.build_env.
  simpl. destruct (Executor.add_params _ _ _) as [env|]; [|done].
  destruct Hearly as [[Hc [Hf | Hex]] | [Hb Hp]].
  - by rewrite Hc, Hf.
  - rewrite Hc, Hex. by destruct (Js.truthy (file ex)).
  - assert (∀ w0 src env tm,
              Executor.dispatch w0 ex src env tm root
              = Executor.Resolved
                  (Executor.failed ("Unknown executor type: " +:+ type ex))) as Hd.
    { intros. unfold Executor.dispatch. by rewrite !decide_False. }
    rewrite !Hd.
    destruct (Js.truthy (code ex)); [done|].
    destruct (Js.truthy (file ex)); [|done].
    destruct (Executor.existsSync w _); simpl; [|done].
    destruct (Executor.readFile w _); [by rewrite !Hd | done].
Qed.

Lemma early_failures_spawn_nothing_witness :
  Executor.executeCommand (Sample.world Sample.sleeper)
    {| type := "ruby"; code := Some "puts 1"; file := None; timeout := None |}
    [] "/work" "/work/.mcp" "run"
  = Executor.executeCommand (Sample.world Sample.hello)
      {| type := "ruby"; code := Some "puts 1"; file := None; timeout := None |}
      [] "/work" "/work/.mcp" "run".
Proof.
  apply (early_failures_spawn_nothing (Sample.world Sample.hello)
           {| type := "ruby"; code := Some "puts 1"; file := None; timeout := None |}
           [] "/work" "/work/.mcp" "run" (fun _ => Sample.sleeper)).
  right. split; discriminate.
Defined.
